(** * The CSS selector builder of [05-objects-tasks.js]

    A shallow embedding of [class SelectorBuilder] and of the facade value
    [cssSelectorBuilder], with the properties of its validation, of its
    part-appending methods, of [combine] and of [stringify].

    JavaScript objects are mutable and are passed by reference: [stringify]
    and [combine] assign to fields of [this].  The embedding therefore keeps
    an explicit object store; a builder is a reference into it, and every
    method is a computation in a state-and-exception monad over the store. *)

From Stdlib Require Import String Ascii List ZArith Lia Bool.
From stdpp Require Import base list.
Import ListNotations.

Local Open Scope string_scope.
Local Open Scope Z_scope.

(** ** JavaScript strings and arrays

    A string is the sequence of its code units.  The markers are ASCII, so
    searching for them gives the same answer on the bytes of a [string]
    here as on the code units of the JavaScript string. *)

Module Js.

(** Template literals and [+] on strings. *)
Notation "a +++ b" := (String.append a b)
  (at level 60, right associativity) : string_scope.

(** [s.includes(sub)]: [sub] occurs in [s] at some position. *)
Fixpoint includes (s sub : string) : bool :=
  String.prefix sub s ||
  match s with
  | EmptyString => false
  | String _ s' => includes s' sub
  end.

(** [arr.indexOf(x)], with [-1] when [x] is absent. *)
Fixpoint indexOf_from (arr : list string) (x : string) (i : Z) : Z :=
  match arr with
  | [] => -1
  | y :: arr' => if String.eqb y x then i else indexOf_from arr' x (i + 1)
  end.

Definition indexOf (arr : list string) (x : string) : Z :=
  indexOf_from arr x 0.

(** [arr.slice(start)]; a negative [start] counts from the end. *)
Definition slice {A} (arr : list A) (start : Z) : list A :=
  if start <? 0
  then drop (Z.to_nat (Z.max (Z.of_nat (length arr) + start) 0)) arr
  else drop (Z.to_nat start) arr.

End Js.
Import Js.

(** ** The object store and the monad of methods *)

(** The two fields a [SelectorBuilder] instance carries that are ever
    assigned.  The third one, [elementsSymbols], is set by the constructor
    to the same array literal for every instance and never assigned again;
    it is the constant [elementsSymbols] below.  [elementCount] is a
    JavaScript number; the methods only ever produce the integers 0 and 1,
    and the integer model of [elementCount + 1] is exact on the safe
    integers ([safe_integer] below). *)
Record instance : Type := Instance {
  value : string;
  elementCount : Z
}.

(** References are positions in the store; the store grows at its end. *)
Abbreviation loc := nat (only parsing).
Abbreviation store := (list instance) (only parsing).

(** What a [throw] carries: [new Error(message)], or the [TypeError] of a
    method call through something that is not an object of the store. *)
Inductive exn : Type :=
| Error (message : string)
| TypeError.

Inductive outcome (A : Type) : Type :=
| Return (a : A)
| Throw (e : exn).
Arguments Return {A} a.
Arguments Throw {A} e.

Definition M (A : Type) : Type := store -> outcome A * store.

Definition ret {A} (a : A) : M A := fun h => (Return a, h).

Definition bind {A B} (m : M A) (k : A -> M B) : M B :=
  fun h =>
    match m h with
    | (Return a, h') => k a h'
    | (Throw e, h') => (Throw e, h')
    end.

Definition throw {A} (e : exn) : M A := fun h => (Throw e, h).

Declare Scope js_scope.
Delimit Scope js_scope with js.
Notation "x <- m ;; k" := (bind m (fun x => k))
  (at level 100, m at next level, right associativity) : js_scope.
Notation "m ;; k" := (bind m (fun _ => k))
  (at level 100, right associativity) : js_scope.
Local Open Scope js_scope.

(** [arr.forEach(f)], where the callback may throw. *)
Fixpoint forEach {A} (arr : list A) (f : A -> M unit) : M unit :=
  match arr with
  | [] => ret tt
  | x :: arr' => f x ;; forEach arr' f
  end.

(** Field reads and writes through a reference. *)
Definition load (l : loc) : M instance :=
  fun h =>
    match h !! l with
    | Some o => (Return o, h)
    | None => (Throw TypeError, h)
    end.

Definition getValue (l : loc) : M string :=
  o <- load l ;; ret (value o).

Definition getElementCount (l : loc) : M Z :=
  o <- load l ;; ret (elementCount o).

Definition setValue (l : loc) (v : string) : M unit :=
  fun h =>
    match h !! l with
    | Some o => (Return tt, <[l := Instance v (elementCount o)]> h)
    | None => (Throw TypeError, h)
    end.

Definition setElementCount (l : loc) (n : Z) : M unit :=
  fun h =>
    match h !! l with
    | Some o => (Return tt, <[l := Instance (value o) n]> h)
    | None => (Throw TypeError, h)
    end.

(** ** class SelectorBuilder *)

Module SelectorBuilder.

Definition elementsSymbols : list string :=
  [""; "#"; "."; "["; ":"; "::"].

(** The messages of the two errors [isError] throws. *)
Definition DuplicateUniquePartError : exn :=
  Error "Element, id and pseudo-element should not occur more then one time inside the selector".

Definition OutOfOrderError : exn :=
  Error "Selector parts should be arranged in the following order: element, id, class, attribute, pseudo-class, pseudo-element".

(** [new SelectorBuilder(value, elementCount)]: a fresh object, at the
    first unused reference. *)
Definition new (value : string) (elementCount : Z) : M loc :=
  fun h => (Return (length h), (h ++ [Instance value elementCount])%list).

Definition isError (this : loc) (selector : string) : M unit :=
  o <- load this ;;
  let value := value o in
  let elementCount := elementCount o in
  let isElementRepeats := String.eqb selector "" && (0 <? elementCount) in
  let isIdOrPseudoRepeats :=
    (String.eqb selector "#" || String.eqb selector "::")
    && includes value selector in
  if isElementRepeats || isIdOrPseudoRepeats
  then throw DuplicateUniquePartError
  else
    let index := indexOf elementsSymbols selector in
    let errorSelectors := slice elementsSymbols (index + 1) in
    forEach errorSelectors (fun sel =>
      if includes value sel then throw OutOfOrderError else ret tt).

Definition element (this : loc) (v : string) : M loc :=
  isError this "" ;;
  value <- getValue this ;;
  count <- getElementCount this ;;
  new (value +++ v) (count + 1).

Definition id (this : loc) (v : string) : M loc :=
  isError this "#" ;;
  value <- getValue this ;;
  count <- getElementCount this ;;
  new (value +++ "#" +++ v) count.

Definition class (this : loc) (v : string) : M loc :=
  isError this "." ;;
  value <- getValue this ;;
  count <- getElementCount this ;;
  new (value +++ "." +++ v) count.

Definition attr (this : loc) (v : string) : M loc :=
  isError this "[" ;;
  value <- getValue this ;;
  count <- getElementCount this ;;
  new (value +++ "[" +++ v +++ "]") count.

Definition pseudoClass (this : loc) (v : string) : M loc :=
  isError this ":" ;;
  value <- getValue this ;;
  count <- getElementCount this ;;
  new (value +++ ":" +++ v) count.

Definition pseudoElement (this : loc) (v : string) : M loc :=
  isError this "::" ;;
  value <- getValue this ;;
  count <- getElementCount this ;;
  new (value +++ "::" +++ v) count.

Definition stringify (this : loc) : M string :=
  setElementCount this 0 ;;
  getValue this.

Definition combine (this selector1 : loc) (combiner : string)
    (selector2 : loc) : M loc :=
  s1 <- stringify selector1 ;;
  s2 <- stringify selector2 ;;
  setValue this (s1 +++ " " +++ combiner +++ " " +++ s2) ;;
  result <- getValue this ;;
  setValue this "" ;;
  new result 0.

End SelectorBuilder.

(** [const cssSelectorBuilder = new SelectorBuilder()]: the module creates
    the facade instance first, so it sits at reference [0] of the initial
    store, with the constructor's default arguments. *)
Definition cssSelectorBuilder : loc := 0%nat.
Definition initial_store : store := [Instance "" 0].

Import SelectorBuilder.

(** ** Part kinds

    The class has no type of kinds: each part-appending method passes its
    own marker token to [isError].  The six methods are indexed here by
    their kind, in the order of [elementsSymbols]. *)

Inductive Kind : Type :=
| KElement | KId | KClass | KAttr | KPseudoClass | KPseudoElement.

(** The token the method of kind [k] passes to [isError]. *)
Definition marker (k : Kind) : string :=
  match k with
  | KElement => ""
  | KId => "#"
  | KClass => "."
  | KAttr => "["
  | KPseudoClass => ":"
  | KPseudoElement => "::"
  end.

(** The position of a kind in the fixed order. *)
Definition rank (k : Kind) : nat :=
  match k with
  | KElement => 0
  | KId => 1
  | KClass => 2
  | KAttr => 3
  | KPseudoClass => 4
  | KPseudoElement => 5
  end.

Definition Kind_lt (k k' : Kind) : Prop := (rank k < rank k')%nat.

(** The text the method of kind [k] appends for the fragment [v]. *)
Definition part (k : Kind) (v : string) : string :=
  match k with
  | KElement => v
  | KId => "#" +++ v
  | KClass => "." +++ v
  | KAttr => "[" +++ v +++ "]"
  | KPseudoClass => ":" +++ v
  | KPseudoElement => "::" +++ v
  end.

(** The part-appending method of kind [k]. *)
Definition append (k : Kind) : loc -> string -> M loc :=
  match k with
  | KElement => element
  | KId => id
  | KClass => class
  | KAttr => attr
  | KPseudoClass => pseudoClass
  | KPseudoElement => pseudoElement
  end.

(** The element count of the instance the method of kind [k] returns. *)
Definition count_after (k : Kind) (n : Z) : Z :=
  match k with
  | KElement => n + 1
  | _ => n
  end.

(** The calls of the public surface, and what they return. *)
Inductive call : Type :=
| Append (k : Kind) (this : loc) (v : string)
| Combine (this selector1 : loc) (combiner : string) (selector2 : loc)
| Stringify (this : loc).

Inductive result : Type :=
| Builder (b : loc)
| Rendered (s : string).

Definition invoke (c : call) : M result :=
  match c with
  | Append k this v => b <- append k this v ;; ret (Builder b)
  | Combine this s1 tok s2 => b <- combine this s1 tok s2 ;; ret (Builder b)
  | Stringify this => s <- stringify this ;; ret (Rendered s)
  end.

(** ** The validation as a function of the fields

    [isError] reads [this] once and then works on the values read; [check]
    is its verdict on those values. *)

(** The first test of [isError]: the duplicate condition. *)
Definition repeats (value : string) (elementCount : Z) (selector : string)
  : bool :=
  String.eqb selector "" && (0 <? elementCount)
  || (String.eqb selector "#" || String.eqb selector "::")
     && includes value selector.

(** The markers [isError] then looks for: [errorSelectors]. *)
Definition errorSelectors (selector : string) : list string :=
  slice elementsSymbols (indexOf elementsSymbols selector + 1).

Definition check (value : string) (elementCount : Z) (selector : string)
  : outcome unit :=
  if repeats value elementCount selector then Throw DuplicateUniquePartError
  else if existsb (includes value) (errorSelectors selector)
       then Throw OutOfOrderError
       else Return tt.

(** ** The conditions of the specification *)

(** The duplicate condition for a call of kind [k] on an instance [o]. *)
Definition duplicate (k : Kind) (o : instance) : Prop :=
  (k = KId \/ k = KPseudoElement) /\ includes (value o) (marker k) = true
  \/ k = KElement /\ 0 < elementCount o.

(** The accumulated value of [o] contains the marker of a kind strictly
    after [k] in the fixed order. *)
Definition later_marker (k : Kind) (o : instance) : Prop :=
  exists k', Kind_lt k k' /\ includes (value o) (marker k') = true.

(** The ordering rule read without the duplicate test: a call of kind [k]
    on [this] throws the ordering error exactly when the value holds a
    later marker. *)
Definition out_of_order_exactly_on_later_marker
    (k : Kind) (this : loc) (v : string) (h : store) : Prop :=
  forall o, h !! this = Some o ->
    (fst (append k this v h) = Throw OutOfOrderError <-> later_marker k o).

(** The frame of a computation: [m] removes no instance, changes the
    [value] field of no instance outside [V] and the [elementCount] field
    of no instance outside [C]. *)
Definition modifies {A} (V C : loc -> Prop) (m : M A) : Prop :=
  forall h b o, h !! b = Some o ->
    exists o', snd (m h) !! b = Some o'
      /\ (~ V b -> value o' = value o)
      /\ (~ C b -> elementCount o' = elementCount o).

(** The instances whose fields a call of the public surface assigns. *)
Definition writes_value (c : call) (b : loc) : Prop :=
  match c with
  | Combine this _ _ _ => b = this
  | _ => False
  end.

Definition writes_elementCount (c : call) (b : loc) : Prop :=
  match c with
  | Append _ _ _ => False
  | Combine _ selector1 _ selector2 => b = selector1 \/ b = selector2
  | Stringify this => b = this
  end.

(** Immutability as the specification has it: the call [c] leaves the
    instance [b] as it was. *)
Definition never_mutated (c : call) (h : store) (b : loc) : Prop :=
  forall o, h !! b = Some o -> snd (invoke c h) !! b = Some o.

(** The text [combine] builds. *)
Definition combined (s1 combiner s2 : string) : string :=
  s1 +++ " " +++ combiner +++ " " +++ s2.

(** Two junction tests for the marker [::], which a concatenation can
    form out of a colon on each side. *)
Definition starts_with_colon (s : string) : bool := String.prefix ":" s.

Fixpoint ends_with_colon (s : string) : bool :=
  match s with
  | EmptyString => false
  | String c EmptyString => if ascii_dec ":"%char c then true else false
  | String _ s' => ends_with_colon s'
  end.

(** The markers the validation of a call of kind [k] searches the value
    for: its own when the duplicate test does so, then those of the later
    kinds. *)
Definition scanned (k : Kind) : list string :=
  ((if String.eqb (marker k) "#" || String.eqb (marker k) "::"
    then [marker k] else []) ++ errorSelectors (marker k))%list.

(** [s] contains no character of a marker of [ms]. *)
Definition free_of (ms : list string) (s : string) : bool :=
  forallb
    (fun m =>
       forallb (fun c => negb (includes s (String c EmptyString)))
               (list_ascii_of_string m))
    ms.

(** [s] contains no marker of a kind strictly after [k]. *)
Definition no_later_marker (k : Kind) (s : string) : bool :=
  negb (existsb (includes s) (errorSelectors (marker k))).

(** A value on which a call of kind [k] passes the substring tests of the
    validation, stated on characters where one character decides. *)
Definition ready (k : Kind) (s : string) : Prop :=
  match k with
  | KPseudoElement => includes s "::" = false
  | _ => free_of (scanned k) s = true
  end.

(** A chain of part-appending calls, each on the builder the previous one
    returned. *)
Fixpoint chain (this : loc) (calls : list (Kind * string)) : M loc :=
  match calls with
  | [] => ret this
  | (k, v) :: calls' => b <- append k this v ;; chain b calls'
  end.

(** The concatenation of the parts of a chain, in application order. *)
Fixpoint text (calls : list (Kind * string)) : string :=
  match calls with
  | [] => ""
  | (k, v) :: calls' => part k v +++ text calls'
  end.

(** The kinds of a chain follow the fixed order, each kind at most once. *)
Fixpoint increasing (calls : list (Kind * string)) : Prop :=
  match calls with
  | (k, _) :: (((k', _) :: _) as calls') => Kind_lt k k' /\ increasing calls'
  | _ => True
  end.

(** No fragment of a chain contains a character of a marker that the
    validation of the next call searches for. *)
Fixpoint hygienic (calls : list (Kind * string)) : Prop :=
  match calls with
  | (_, v) :: (((k', _) :: _) as calls') =>
      free_of (scanned k') v = true /\ hygienic calls'
  | _ => True
  end.

(** A chain from the facade instance succeeds and renders to its text. *)
Definition chain_renders (calls : list (Kind * string)) (h : store) : Prop :=
  exists b h',
    chain cssSelectorBuilder calls h = (Return b, h')
    /\ fst (stringify b h') = Return (text calls).

(** The kinds the specification calls repeatable, and those the class
    lets repeat. *)
Definition repeatable_in_spec (k : Kind) : Prop :=
  k = KId \/ k = KClass \/ k = KAttr \/ k = KPseudoClass.

Definition repeatable (k : Kind) : Prop :=
  k = KClass \/ k = KAttr \/ k = KPseudoClass.

(** A second call of the same kind, right after a first that returned,
    returns a builder too. *)
Definition same_kind_again_succeeds
    (k : Kind) (b0 : loc) (v0 v : string) (h : store) : Prop :=
  forall b1 h1,
    append k b0 v0 h = (Return b1, h1) ->
    exists b2 h2, append k b1 v h1 = (Return b2, h2).

(** The double quote character, and the two fragments of the examples
    that contain it: [data-x="#1"] and [href$=".png"]. *)
Definition dquote : string := String "034"%char EmptyString.
Definition data_x_fragment : string := "data-x=" +++ dquote +++ "#1" +++ dquote.
Definition href_png_fragment : string := "href$=" +++ dquote +++ ".png" +++ dquote.

(** ** Histories of calls and what they keep *)

(** What a call may make of an instance [o] of the store: the value is
    kept or emptied, the element count is kept or set to 0. *)
Definition evolves (o o' : instance) : Prop :=
  (value o' = value o \/ value o' = "")
  /\ (elementCount o' = elementCount o \/ elementCount o' = 0).

(** Every instance of [h] is still in [h'], possibly evolved. *)
Definition store_evolves (h h' : store) : Prop :=
  forall b o, h !! b = Some o -> exists o', h' !! b = Some o' /\ evolves o o'.

(** The store after a history of calls by a client that goes on after an
    exception. *)
Fixpoint run (cs : list call) (h : store) : store :=
  match cs with
  | [] => h
  | c :: cs' => run cs' (snd (invoke c h))
  end.

(** The element counts [element] produces from the initial store. *)
Definition count01 (o : instance) : Prop :=
  elementCount o = 0 \/ elementCount o = 1.

(** The number of [element] calls of a chain. *)
Fixpoint elements (calls : list (Kind * string)) : Z :=
  match calls with
  | [] => 0
  | (KElement, _) :: calls' => 1 + elements calls'
  | _ :: calls' => elements calls'
  end.

(** A call of the public surface returned the builder [b]. *)
Definition returns_builder (c : call) (h : store) (b : loc) : Prop :=
  fst (invoke c h) = Return (Builder b).

(** ** Safe integers and admissible chains *)

(** [Number.MIN_SAFE_INTEGER] and [Number.MAX_SAFE_INTEGER]: between them
    every integer is a JavaScript number and [n + 1] is computed exactly. *)
Definition MIN_SAFE_INTEGER : Z := - 9007199254740991.
Definition MAX_SAFE_INTEGER : Z := 9007199254740991.

Definition safe_integer (n : Z) : Prop :=
  MIN_SAFE_INTEGER <= n <= MAX_SAFE_INTEGER.

Definition is_element (k : Kind) : bool :=
  match k with
  | KElement => true
  | _ => false
  end.

(** A call of kind [k] on the text [s], after [n] element parts, is not a
    further element call, and [s] includes none of the markers its
    validation searches for. *)
Definition passes (k : Kind) (s : string) (n : Z) : bool :=
  negb (is_element k && (0 <? n))
  && forallb (fun m => negb (includes s m)) (scanned k).

(** Every call of a chain passes on the text the calls before it have
    appended to [s]. *)
Fixpoint admissible_from (s : string) (n : Z) (calls : list (Kind * string))
  : bool :=
  match calls with
  | [] => true
  | (k, v) :: calls' =>
      passes k s n && admissible_from (s +++ part k v) (count_after k n) calls'
  end.

(** The same from the fresh root: the empty text and no element part. *)
Definition admissible (calls : list (Kind * string)) : Prop :=
  admissible_from "" 0 calls = true.


(** ** The scenarios of the documentation

    The examples of the comment above the class, run from the initial
    store. *)

Example scenario_id_class_class :
  fst ((b <- id cssSelectorBuilder "main" ;;
        b <- class b "container" ;;
        b <- class b "editable" ;;
        stringify b) initial_store)
  = Return "#main.container.editable".
Proof. reflexivity. Qed.

Example scenario_element_attr_pseudoClass :
  fst ((b <- element cssSelectorBuilder "a" ;;
        b <- attr b href_png_fragment ;;
        b <- pseudoClass b "focus" ;;
        stringify b) initial_store)
  = Return ("a[" +++ href_png_fragment +++ "]:focus").
Proof. reflexivity. Qed.

Example scenario_nested_combine :
  fst ((a1 <- element cssSelectorBuilder "div" ;;
        a1 <- id a1 "main" ;;
        a1 <- class a1 "container" ;;
        a1 <- class a1 "draggable" ;;
        a2 <- element cssSelectorBuilder "table" ;;
        a2 <- id a2 "data" ;;
        a3 <- element cssSelectorBuilder "tr" ;;
        a3 <- pseudoClass a3 "nth-of-type(even)" ;;
        a4 <- element cssSelectorBuilder "td" ;;
        a4 <- pseudoClass a4 "nth-of-type(even)" ;;
        c34 <- combine cssSelectorBuilder a3 " " a4 ;;
        c234 <- combine cssSelectorBuilder a2 "~" c34 ;;
        c <- combine cssSelectorBuilder a1 "+" c234 ;;
        stringify c) initial_store)
  = Return "div#main.container.draggable + table#data ~ tr:nth-of-type(even)   td:nth-of-type(even)".
Proof. reflexivity. Qed.

Example scenario_two_elements :
  fst ((b <- element cssSelectorBuilder "table" ;; element b "div")
         initial_store)
  = Throw DuplicateUniquePartError.
Proof. reflexivity. Qed.

Example scenario_two_pseudoElements :
  fst ((b <- pseudoElement cssSelectorBuilder "after" ;;
        pseudoElement b "before") initial_store)
  = Throw DuplicateUniquePartError.
Proof. reflexivity. Qed.

Example scenario_element_after_class :
  fst ((b <- class cssSelectorBuilder "draggable" ;; element b "div")
         initial_store)
  = Throw OutOfOrderError.
Proof. reflexivity. Qed.

(** ** Basic facts on the monad and the methods *)

Section Basics.

Variables (h : store) (l : loc) (o : instance).
Hypothesis Hl : h !! l = Some o.

Lemma load_ok : load l h = (Return o, h).
Proof using Hl. unfold load. now rewrite Hl. Qed.

Lemma getValue_ok : getValue l h = (Return (value o), h).
Proof using Hl. unfold getValue, bind. now rewrite load_ok. Qed.

Lemma getElementCount_ok :
  getElementCount l h = (Return (elementCount o), h).
Proof using Hl. unfold getElementCount, bind. now rewrite load_ok. Qed.

Lemma setValue_ok v :
  setValue l v h = (Return tt, <[l := Instance v (elementCount o)]> h).
Proof using Hl. unfold setValue. now rewrite Hl. Qed.

Lemma setElementCount_ok n :
  setElementCount l n h = (Return tt, <[l := Instance (value o) n]> h).
Proof using Hl. unfold setElementCount. now rewrite Hl. Qed.

Lemma lookup_valid : (l < length h)%nat.
Proof using Hl. eapply lookup_lt_Some; eauto. Qed.

End Basics.

Lemma forEach_throw_if {A} (p : A -> bool) (e : exn) (arr : list A) h :
  forEach arr (fun x => if p x then throw e else ret tt) h
  = (if existsb p arr then Throw e else Return tt, h).
Proof.
  induction arr as [|x arr IH]; simpl; [reflexivity|].
  unfold bind. destruct (p x); simpl; [reflexivity|]. unfold ret. apply IH.
Qed.

Lemma isError_ok h this o selector :
  h !! this = Some o ->
  isError this selector h
  = (check (value o) (elementCount o) selector, h).
Proof.
  intros Hl. unfold isError, bind. rewrite (load_ok _ _ _ Hl).
  unfold check, repeats, errorSelectors.
  destruct (_ || _); [reflexivity|]. apply forEach_throw_if.
Qed.

Lemma stringify_ok h this o :
  h !! this = Some o ->
  stringify this h
  = (Return (value o), <[this := Instance (value o) 0]> h).
Proof.
  intros Hl. unfold stringify, bind.
  rewrite (setElementCount_ok _ _ _ Hl).
  rewrite (getValue_ok _ this (Instance (value o) 0)); [reflexivity|].
  apply list_lookup_insert_eq. eapply lookup_valid; eauto.
Qed.

Lemma append_ok k h this o v :
  h !! this = Some o ->
  append k this v h
  = match check (value o) (elementCount o) (marker k) with
    | Return _ =>
        (Return (length h),
         (h ++ [Instance (value o +++ part k v)
                         (count_after k (elementCount o))])%list)
    | Throw e => (Throw e, h)
    end.
Proof.
  intros Hl.
  destruct k; unfold append, element, id, class, attr, pseudoClass,
    pseudoElement, bind;
    rewrite (isError_ok _ _ _ _ Hl); simpl marker;
    destruct (check _ _ _); try reflexivity;
    rewrite (getValue_ok _ _ _ Hl), (getElementCount_ok _ _ _ Hl);
    reflexivity.
Qed.


Lemma errors_distinct : DuplicateUniquePartError <> OutOfOrderError.
Proof. discriminate. Qed.

Lemma repeats_iff k o :
  repeats (value o) (elementCount o) (marker k) = true <-> duplicate k o.
Proof.
  unfold repeats, duplicate.
  destruct k; simpl String.eqb; simpl marker;
    rewrite ?orb_true_iff, ?andb_true_iff, ?Z.ltb_lt;
    intuition (try discriminate; try congruence).
Qed.

Ltac list_errorSelectors :=
  match goal with
  | |- context [errorSelectors ?m] =>
      let l := eval vm_compute in (errorSelectors m) in
      change (errorSelectors m) with l
  end.

Lemma later_iff k o :
  existsb (includes (value o)) (errorSelectors (marker k)) = true
  <-> later_marker k o.
Proof.
  unfold later_marker, Kind_lt.
  destruct k; list_errorSelectors; simpl existsb;
    rewrite ?orb_true_iff, ?orb_false_r; split.
  all: try (intros [k' [Hlt Hin]]; destruct k'; simpl in Hlt, Hin;
            try lia; tauto).
  all: intros H; repeat destruct H as [H|H]; try discriminate.
  all: first
    [ now (exists KId; simpl; split; [lia|assumption])
    | now (exists KClass; simpl; split; [lia|assumption])
    | now (exists KAttr; simpl; split; [lia|assumption])
    | now (exists KPseudoClass; simpl; split; [lia|assumption])
    | now (exists KPseudoElement; simpl; split; [lia|assumption]) ].
Qed.

Lemma check_duplicate k o :
  duplicate k o ->
  check (value o) (elementCount o) (marker k) = Throw DuplicateUniquePartError.
Proof.
  intros H. apply repeats_iff in H. unfold check. now rewrite H.
Qed.

Lemma check_out_of_order k o :
  check (value o) (elementCount o) (marker k) = Throw OutOfOrderError
  <-> ~ duplicate k o /\ later_marker k o.
Proof.
  rewrite <- repeats_iff, <- later_iff. unfold check.
  destruct (repeats _ _ _); [|destruct (existsb _ _)]; split;
    try (intros [H1 H2]); try (intros H1);
    try discriminate; try congruence; try (now split).
Qed.

(** ** Substring search over concatenations *)

#[local] Arguments ascii_dec : simpl never.

Lemma prefix_empty s : String.prefix "" s = true.
Proof. now destruct s. Qed.

(** A one-character marker occurs in a concatenation exactly when it
    occurs in one of the two sides. *)
Lemma includes_app_char c a b :
  includes (a +++ b) (String c "")
  = includes a (String c "") || includes b (String c "").
Proof.
  induction a as [|x a IH]; simpl; [reflexivity|].
  rewrite IH. destruct (ascii_dec c x); rewrite ?prefix_empty; reflexivity.
Qed.

Lemma includes_colon_of_double_colon s :
  includes s "::" = true -> includes s ":" = true.
Proof.
  induction s as [|x s IH]; simpl; [discriminate|].
  destruct (ascii_dec ":" x); rewrite ?prefix_empty; simpl; [reflexivity|].
  exact IH.
Qed.

Lemma no_double_colon_without_colon s :
  includes s ":" = false -> includes s "::" = false.
Proof.
  intros H. destruct (includes s "::") eqn:E; [|reflexivity].
  apply includes_colon_of_double_colon in E. congruence.
Qed.

Lemma no_colon_at_start s :
  includes s ":" = false -> starts_with_colon s = false.
Proof.
  unfold starts_with_colon. destruct s as [|x s]; simpl; [reflexivity|].
  now destruct (ascii_dec ":" x); rewrite ?prefix_empty.
Qed.

Lemma no_colon_at_end s :
  includes s ":" = false -> ends_with_colon s = false.
Proof.
  induction s as [|x s IH]; [reflexivity|].
  simpl includes. intros H.
  destruct (ascii_dec ":" x) eqn:E; rewrite ?prefix_empty in H;
    simpl in H; [discriminate|].
  destruct s; [simpl; now rewrite E | now apply IH].
Qed.

(** The marker [::] occurs in a concatenation when it occurs in one of the
    two sides, or when it is formed at the junction. *)
Lemma includes_app_double_colon a b :
  includes (a +++ b) "::"
  = includes a "::" || includes b "::"
    || ends_with_colon a && starts_with_colon b.
Proof.
  induction a as [|x a IH].
  - simpl. now rewrite orb_false_r.
  - change (String x a +++ b) with (String x (a +++ b)).
    simpl includes. rewrite IH. unfold starts_with_colon.
    destruct a as [|y a].
    + simpl. destruct (ascii_dec ":" x); simpl; [|reflexivity].
      destruct (String.prefix ":" b), (includes b "::"); reflexivity.
    + change (String y a +++ b) with (String y (a +++ b)).
      simpl String.prefix. simpl ends_with_colon.
      destruct (ascii_dec ":" x), (ascii_dec ":" y);
        rewrite ?prefix_empty; simpl; try reflexivity.
Qed.

(** ** Validation *)

(** C6. A part-appending call throws the duplicate-part error when its kind
    is id or pseudo-element and the accumulated value already contains that
    kind's marker, or when its kind is element and the element count is
    greater than 0; the store is left as it was. *)
Theorem duplicate_part_is_rejected k this v h o :
  h !! this = Some o ->
  duplicate k o ->
  append k this v h = (Throw DuplicateUniquePartError, h).
Proof.
  intros Hl Hd. rewrite (append_ok _ _ _ _ _ Hl).
  now rewrite (check_duplicate _ _ Hd).
Qed.

Lemma duplicate_part_is_rejected_witness :
  append KElement 1%nat "span" [Instance "" 0; Instance "div" 1]
  = (Throw DuplicateUniquePartError, [Instance "" 0; Instance "div" 1]).
Proof.
  apply (duplicate_part_is_rejected KElement 1%nat "span"
           [Instance "" 0; Instance "div" 1] (Instance "div" 1)).
  - reflexivity.
  - right. split; [reflexivity | simpl; lia].
Defined.

(** The value [#a.b] holds the marker of class, a kind after id, and yet
    a further [id] call on it throws the duplicate-part error, not the
    ordering error. *)
Lemma later_marker_rule_fails_on_repeated_id :
  (b <- id cssSelectorBuilder "a" ;; class b "b") initial_store
  = (Return 2%nat, [Instance "" 0; Instance "#a" 0; Instance "#a.b" 0])
  /\ fst (id 2%nat "c" [Instance "" 0; Instance "#a" 0; Instance "#a.b" 0])
     = Throw DuplicateUniquePartError
  /\ ~ out_of_order_exactly_on_later_marker KId 2%nat "c"
         [Instance "" 0; Instance "#a" 0; Instance "#a.b" 0].
Proof.
  split; [reflexivity|]. split; [reflexivity|].
  intros H. destruct (H (Instance "#a.b" 0) eq_refl) as [_ H'].
  assert (Hl : later_marker KId (Instance "#a.b" 0)).
  { exists KClass. split; [unfold Kind_lt; simpl; lia | reflexivity]. }
  specialize (H' Hl). vm_compute in H'. discriminate H'.
Qed.

(** C5. A part-appending call throws the ordering error exactly when the
    duplicate test does not fire and the accumulated value contains the
    marker of a kind strictly after the candidate kind; it then leaves the
    store as it was.  In particular [id('x').element('div')] throws the
    ordering error. *)
Theorem out_of_order_iff k this v h o :
  h !! this = Some o ->
  (fst (append k this v h) = Throw OutOfOrderError
   <-> ~ duplicate k o /\ later_marker k o)
  /\ (fst (append k this v h) = Throw OutOfOrderError ->
      snd (append k this v h) = h)
  /\ (b <- id cssSelectorBuilder "x" ;; element b "div") initial_store
     = (Throw OutOfOrderError, [Instance "" 0; Instance "#x" 0]).
Proof.
  intros Hl. split; [|split].
  - rewrite <- check_out_of_order, (append_ok _ _ _ _ _ Hl).
    destruct (check _ _ _) as [[]|e]; simpl; split; intros H;
      try discriminate; congruence.
  - rewrite (append_ok _ _ _ _ _ Hl).
    destruct (check _ _ _) as [[]|e]; simpl; [discriminate|reflexivity].
  - reflexivity.
Qed.

Lemma out_of_order_iff_witness :
  fst (append KElement 1%nat "div" [Instance "" 0; Instance "#x" 0])
  = Throw OutOfOrderError.
Proof.
  apply (out_of_order_iff KElement 1%nat "div"
           [Instance "" 0; Instance "#x" 0] (Instance "#x" 0) eq_refl).
  split.
  - intros [[[H|H] _]|[_ H]]; [discriminate H | discriminate H |].
    simpl in H. lia.
  - exists KId. split; [unfold Kind_lt; simpl; lia | reflexivity].
Defined.

(** C10. The duplicate test scans the raw accumulated string: from the
    fresh root, [attr('data-x="#1"')] gives a builder to which no id part
    was appended, and every [id(v)] call on it throws the duplicate-part
    error. *)
Theorem id_after_hash_in_attribute_is_rejected h v :
  h !! cssSelectorBuilder = Some (Instance "" 0) ->
  exists b h',
    attr cssSelectorBuilder data_x_fragment h = (Return b, h')
    /\ h' !! b = Some (Instance ("[" +++ data_x_fragment +++ "]") 0)
    /\ id b v h' = (Throw DuplicateUniquePartError, h').
Proof.
  intros Hl. exists (length h).
  exists (h ++ [Instance ("[" +++ data_x_fragment +++ "]") 0])%list.
  split; [|split].
  - exact (append_ok KAttr _ _ _ data_x_fragment Hl).
  - rewrite lookup_app_r by lia. now rewrite Nat.sub_diag.
  - rewrite (append_ok KId _ _ (Instance ("[" +++ data_x_fragment +++ "]") 0)).
    + rewrite check_duplicate; [reflexivity|].
      left. split; [now left | reflexivity].
    + rewrite lookup_app_r by lia. now rewrite Nat.sub_diag.
Qed.

Lemma id_after_hash_in_attribute_is_rejected_witness :
  exists b h',
    attr cssSelectorBuilder data_x_fragment initial_store = (Return b, h')
    /\ h' !! b = Some (Instance ("[" +++ data_x_fragment +++ "]") 0)
    /\ id b "main" h' = (Throw DuplicateUniquePartError, h').
Proof.
  apply (id_after_hash_in_attribute_is_rejected initial_store "main").
  reflexivity.
Defined.

(** ** Rendering *)

(** C8. Render is idempotent: two [stringify()] calls in succession on the
    same instance return the same string, the accumulated value; the
    second call leaves the store as the first left it. *)
Theorem stringify_twice this h o :
  h !! this = Some o ->
  exists h1,
    stringify this h = (Return (value o), h1)
    /\ stringify this h1 = (Return (value o), h1).
Proof.
  intros Hl. pose proof (lookup_valid _ _ _ Hl) as Hlt.
  eexists. split; [exact (stringify_ok _ _ _ Hl)|].
  rewrite (stringify_ok _ this (Instance (value o) 0)).
  - simpl. now rewrite list_insert_insert_eq.
  - now apply list_lookup_insert_eq.
Qed.

Lemma stringify_twice_witness :
  exists h1,
    stringify 1%nat [Instance "" 0; Instance "div" 1] = (Return "div", h1)
    /\ stringify 1%nat h1 = (Return "div", h1).
Proof.
  apply (stringify_twice 1%nat [Instance "" 0; Instance "div" 1]
           (Instance "div" 1)).
  reflexivity.
Defined.

(** ** The frame of the methods *)

Section Frame.

Context {A B : Type}.
Variables V C : loc -> Prop.

Lemma modifies_ret (a : A) : modifies V C (ret a).
Proof. intros h b o Hl. exists o. auto. Qed.

Lemma modifies_throw (e : exn) : modifies V C (@throw A e).
Proof. intros h b o Hl. exists o. auto. Qed.

Lemma modifies_bind (m : M A) (k : A -> M B) :
  modifies V C m -> (forall a, modifies V C (k a)) ->
  modifies V C (bind m k).
Proof.
  intros Hm Hk h b o Hl. unfold bind.
  destruct (Hm h b o Hl) as (o1 & Hl1 & Hv1 & Hc1).
  destruct (m h) as [[a|e] h1]; simpl in Hl1.
  - destruct (Hk a h1 b o1 Hl1) as (o2 & Hl2 & Hv2 & Hc2).
    exists o2. split; [assumption|].
    split; intros Hn; [rewrite Hv2, Hv1 | rewrite Hc2, Hc1]; auto.
  - exists o1. auto.
Qed.

Lemma modifies_weaken (V' C' : loc -> Prop) (m : M A) :
  (forall b, V' b -> V b) -> (forall b, C' b -> C b) ->
  modifies V' C' m -> modifies V C m.
Proof.
  intros HV HC Hm h b o Hl.
  destruct (Hm h b o Hl) as (o' & Hl' & Hv & Hc).
  exists o'. split; [assumption|]. split; intros Hn; auto.
Qed.

End Frame.

Lemma modifies_load V C l : modifies V C (load l).
Proof.
  intros h b o Hl. unfold load. destruct (h !! l); simpl; exists o; auto.
Qed.

Lemma modifies_getValue V C l : modifies V C (getValue l).
Proof.
  apply modifies_bind; [apply modifies_load | intros; apply modifies_ret].
Qed.

Lemma modifies_getElementCount V C l : modifies V C (getElementCount l).
Proof.
  apply modifies_bind; [apply modifies_load | intros; apply modifies_ret].
Qed.

Lemma modifies_setValue C l v : modifies (eq l) C (setValue l v).
Proof.
  intros h b o Hl. unfold setValue.
  destruct (h !! l) as [ol|] eqn:El; simpl; [|exists o; auto].
  destruct (decide (l = b)) as [->|Hne].
  - rewrite list_lookup_insert_eq by (eapply lookup_valid; eauto).
    eexists. split; [reflexivity|]. simpl.
    split; intros Hn; [now destruct Hn | congruence].
  - rewrite list_lookup_insert_ne by assumption. exists o. auto.
Qed.

Lemma modifies_setElementCount V l n : modifies V (eq l) (setElementCount l n).
Proof.
  intros h b o Hl. unfold setElementCount.
  destruct (h !! l) as [ol|] eqn:El; simpl; [|exists o; auto].
  destruct (decide (l = b)) as [->|Hne].
  - rewrite list_lookup_insert_eq by (eapply lookup_valid; eauto).
    eexists. split; [reflexivity|]. simpl.
    split; intros Hn; [congruence | now destruct Hn].
  - rewrite list_lookup_insert_ne by assumption. exists o. auto.
Qed.

Lemma modifies_new V C v n : modifies V C (new v n).
Proof.
  intros h b o Hl. unfold new; simpl. exists o.
  split; [now apply lookup_app_l_Some | auto].
Qed.

Lemma modifies_forEach {A} V C (arr : list A) (f : A -> M unit) :
  (forall x, modifies V C (f x)) -> modifies V C (forEach arr f).
Proof.
  intros Hf. induction arr as [|x arr IH]; simpl.
  - apply modifies_ret.
  - apply modifies_bind; auto.
Qed.

Lemma modifies_isError V C this selector :
  modifies V C (isError this selector).
Proof.
  unfold isError. apply modifies_bind; [apply modifies_load|]. intros o.
  destruct (_ || _); [apply modifies_throw|].
  apply modifies_forEach. intros sel.
  destruct (includes _ _); [apply modifies_throw | apply modifies_ret].
Qed.

(** The part-appending methods assign to no field of any instance. *)
Lemma modifies_append V C k this v : modifies V C (append k this v).
Proof.
  destruct k; simpl; unfold element, id, class, attr, pseudoClass,
    pseudoElement;
    (apply modifies_bind; [apply modifies_isError|]; intros _;
     apply modifies_bind; [apply modifies_getValue|]; intros s;
     apply modifies_bind; [apply modifies_getElementCount|]; intros n;
     apply modifies_new).
Qed.

(** [stringify] assigns to the element count of [this] only. *)
Lemma modifies_stringify V this : modifies V (eq this) (stringify this).
Proof.
  unfold stringify. apply modifies_bind;
    [apply modifies_setElementCount | intros _; apply modifies_getValue].
Qed.

(** [combine] assigns to the value of [this] and, through [stringify], to
    the element counts of its two arguments. *)
Lemma modifies_combine this selector1 combiner selector2 :
  modifies (eq this) (fun b => selector1 = b \/ selector2 = b)
    (combine this selector1 combiner selector2).
Proof.
  unfold combine.
  apply modifies_bind;
    [eapply modifies_weaken; [| |apply modifies_stringify]; eauto|].
  intros s1. apply modifies_bind;
    [eapply modifies_weaken; [| |apply modifies_stringify]; eauto|].
  intros s2. apply modifies_bind; [apply modifies_setValue|]. intros _.
  apply modifies_bind; [apply modifies_getValue|]. intros result.
  apply modifies_bind; [apply modifies_setValue|]. intros _.
  apply modifies_new.
Qed.

(** After [div] is built, rendering it changes its element count from 1
    to 0. *)
Lemma stringify_resets_elementCount :
  element cssSelectorBuilder "div" initial_store
  = (Return 1%nat, [Instance "" 0; Instance "div" 1])
  /\ snd (invoke (Stringify 1%nat) [Instance "" 0; Instance "div" 1])
     = [Instance "" 0; Instance "div" 0]
  /\ ~ never_mutated (Stringify 1%nat) [Instance "" 0; Instance "div" 1] 1%nat.
Proof.
  split; [reflexivity|]. split; [reflexivity|].
  intros H. specialize (H (Instance "div" 1) eq_refl). discriminate H.
Qed.

(** C2. No call of the public surface removes an instance.  The six
    part-appending operations leave every instance as it was, whether they
    return or throw.  [stringify] changes no instance's value, and no
    element count other than that of the instance it renders.  [combine]
    changes no value other than its receiver's, and no element count other
    than those of its two arguments. *)
Theorem frame_of_public_surface c h b o :
  h !! b = Some o ->
  exists o',
    snd (invoke c h) !! b = Some o'
    /\ (~ writes_value c b -> value o' = value o)
    /\ (~ writes_elementCount c b -> elementCount o' = elementCount o)
    /\ (forall k this v, c = Append k this v -> o' = o).
Proof.
  intros Hl.
  assert (Hm : modifies (writes_value c) (writes_elementCount c) (invoke c)).
  { destruct c as [k this v|this s1 tok s2|this]; simpl;
      (apply modifies_bind; [|intros; apply modifies_ret]).
    - apply modifies_append.
    - eapply modifies_weaken; [| |apply modifies_combine]; simpl;
        intuition congruence.
    - eapply modifies_weaken; [| |apply (modifies_stringify (fun _ => False))];
        simpl; intuition congruence. }
  destruct (Hm h b o Hl) as (o' & Hl' & Hv & Hc).
  exists o'. repeat split; try assumption.
  intros k this v ->. simpl in Hv, Hc.
  destruct o, o'; simpl in *. f_equal; auto.
Qed.

Lemma frame_of_public_surface_witness :
  exists o',
    snd (invoke (Stringify 1%nat) [Instance "" 0; Instance "div" 1]) !! 0%nat
    = Some o'
    /\ value o' = "" /\ elementCount o' = 0.
Proof.
  destruct (frame_of_public_surface (Stringify 1%nat)
              [Instance "" 0; Instance "div" 1] 0%nat (Instance "" 0) eq_refl)
    as (o' & Hl & Hv & Hc & _).
  exists o'. split; [exact Hl|]. split.
  - apply Hv. simpl. tauto.
  - apply Hc. simpl. lia.
Defined.

(** ** [combine] *)

Lemma stringify_Return_inv this h s h' :
  stringify this h = (Return s, h') ->
  exists o, h !! this = Some o /\ value o = s.
Proof.
  intros H. destruct (h !! this) as [o|] eqn:El.
  - rewrite (stringify_ok _ _ _ El) in H. exists o. split; congruence.
  - unfold stringify, bind, setElementCount in H. rewrite El in H.
    discriminate H.
Qed.

(** Resetting the element count of one instance keeps the value of every
    instance. *)
Lemma lookup_after_reset (h : store) (i : loc) oi (j : loc) oj :
  h !! i = Some oi -> h !! j = Some oj ->
  exists c, <[i := Instance (value oi) 0]> h !! j
            = Some (Instance (value oj) c).
Proof.
  intros Hi Hj. destruct (decide (i = j)) as [->|Hne].
  - rewrite list_lookup_insert_eq by (eapply lookup_valid; eauto).
    exists 0. congruence.
  - rewrite list_lookup_insert_ne by assumption.
    exists (elementCount oj). now destruct oj.
Qed.

(** [combine] on three instances of the store: it returns the first unused
    reference, where it puts the combined text with element count 0, and
    it leaves its receiver with the empty value. *)
Lemma combine_ok (h : store) this o selector1 o1 combiner selector2 o2 :
  h !! this = Some o ->
  h !! selector1 = Some o1 ->
  h !! selector2 = Some o2 ->
  exists h' c,
    combine this selector1 combiner selector2 h
    = (Return (length h),
       (h' ++ [Instance (combined (value o1) combiner (value o2)) 0])%list)
    /\ length h' = length h
    /\ h' !! this = Some (Instance "" c).
Proof.
  intros Ht H1 H2. unfold combine, bind.
  rewrite (stringify_ok _ _ _ H1).
  destruct (lookup_after_reset _ _ _ _ _ H1 H2) as [c2 H2'].
  destruct (lookup_after_reset _ _ _ _ _ H1 Ht) as [ct Ht'].
  rewrite (stringify_ok _ _ _ H2'). simpl value.
  destruct (lookup_after_reset _ _ _ _ _ H2' Ht') as [c Ht''].
  simpl value in Ht''.
  rewrite (setValue_ok _ _ _ Ht''). simpl elementCount.
  pose proof (lookup_valid _ _ _ Ht'') as Hlt.
  set (h2 := <[selector2 := _]> _) in *.
  set (text := value o1 +++ " " +++ combiner +++ " " +++ value o2).
  assert (H3 : <[this := Instance text c]> h2 !! this
               = Some (Instance text c))
    by now apply list_lookup_insert_eq.
  rewrite (getValue_ok _ _ _ H3), (setValue_ok _ _ _ H3). simpl.
  rewrite list_insert_insert_eq.
  exists (<[this := Instance "" c]> h2), c. unfold new.
  assert (Hlen : length (<[this := Instance "" c]> h2) = length h)
    by (subst h2; now rewrite !length_insert).
  split; [now rewrite Hlen|]. split; [exact Hlen|].
  now apply list_lookup_insert_eq.
Qed.

(** C4. For builders [A] and [B] that render to [sA] and [sB] and every
    combinator token [tok], [combine(A, tok, B)] throws nothing and returns
    a new builder whose value is [sA + " " + tok + " " + sB], with [tok]
    taken as it is, whose element count is 0 and which renders to that
    value. *)
Theorem combine_joins_renderings this A tok B h o sA hA sB hB :
  h !! this = Some o ->
  stringify A h = (Return sA, hA) ->
  stringify B h = (Return sB, hB) ->
  exists r h',
    combine this A tok B h = (Return r, h')
    /\ h !! r = None
    /\ h' !! r = Some (Instance (sA +++ " " +++ tok +++ " " +++ sB) 0)
    /\ fst (stringify r h') = Return (sA +++ " " +++ tok +++ " " +++ sB).
Proof.
  intros Ht HA HB.
  destruct (stringify_Return_inv _ _ _ _ HA) as (oA & HlA & <-).
  destruct (stringify_Return_inv _ _ _ _ HB) as (oB & HlB & <-).
  destruct (combine_ok h this o A oA tok B oB Ht HlA HlB)
    as (h' & c & Hc & Hlen & _).
  eexists _, _. split; [exact Hc|].
  assert (Hr : (h' ++ [Instance (combined (value oA) tok (value oB)) 0])%list
               !! length h
               = Some (Instance (combined (value oA) tok (value oB)) 0)).
  { rewrite lookup_app_r by lia. now rewrite Hlen, Nat.sub_diag. }
  split; [now apply lookup_ge_None|]. split; [exact Hr|].
  now rewrite (stringify_ok _ _ _ Hr).
Qed.

Lemma combine_joins_renderings_witness :
  exists r h',
    combine 0%nat 1%nat "+" 2%nat
      [Instance "" 0; Instance "div#a" 1; Instance "span#b" 1]
    = (Return r, h')
    /\ [Instance "" 0; Instance "div#a" 1; Instance "span#b" 1] !! r = None
    /\ h' !! r = Some (Instance "div#a + span#b" 0)
    /\ fst (stringify r h') = Return "div#a + span#b".
Proof.
  apply (combine_joins_renderings 0%nat 1%nat "+" 2%nat
           [Instance "" 0; Instance "div#a" 1; Instance "span#b" 1]
           (Instance "" 0)
           "div#a" [Instance "" 0; Instance "div#a" 0; Instance "span#b" 1]
           "span#b" [Instance "" 0; Instance "div#a" 1; Instance "span#b" 0]);
    reflexivity.
Defined.

(** C9. [combine] called on a builder [b] with a non-empty value leaves
    [b] with the empty value.  The combined text is the value of the fresh
    instance it returns, which is not [b]; every other instance keeps the
    value it had. *)
Theorem combine_clears_its_receiver b s1 tok s2 h o o1 o2 :
  h !! b = Some o ->
  value o <> "" ->
  h !! s1 = Some o1 ->
  h !! s2 = Some o2 ->
  exists r h',
    combine b s1 tok s2 h = (Return r, h')
    /\ r <> b /\ h !! r = None
    /\ getValue b h' = (Return "", h')
    /\ getValue r h' = (Return (combined (value o1) tok (value o2)), h')
    /\ (forall l ol, l <> b -> h !! l = Some ol ->
          getValue l h' = (Return (value ol), h')).
Proof.
  intros Hb Hne H1 H2.
  destruct (combine_ok h b o s1 o1 tok s2 o2 Hb H1 H2)
    as (h' & c & Hc & Hlen & Hb').
  pose proof (lookup_valid _ _ _ Hb) as Hlt.
  eexists _, _. split; [exact Hc|].
  split; [lia|]. split; [now apply lookup_ge_None|].
  split; [|split].
  - apply getValue_ok with (o := Instance "" c). now apply lookup_app_l_Some.
  - apply getValue_ok with
      (o := Instance (combined (value o1) tok (value o2)) 0).
    rewrite lookup_app_r by lia. now rewrite Hlen, Nat.sub_diag.
  - intros l ol Hl Hol.
    destruct (modifies_combine b s1 tok s2 h l ol Hol) as (ol' & Hl' & Hv & _).
    rewrite Hc in Hl'. simpl in Hl'.
    rewrite <- Hv by congruence. now apply getValue_ok.
Qed.

Lemma combine_clears_its_receiver_witness :
  exists r h',
    combine 1%nat 2%nat ">" 3%nat
      [Instance "" 0; Instance "ul" 1; Instance "li" 1; Instance "a" 1]
    = (Return r, h')
    /\ r <> 1%nat
    /\ [Instance "" 0; Instance "ul" 1; Instance "li" 1; Instance "a" 1] !! r
       = None
    /\ getValue 1%nat h' = (Return "", h')
    /\ getValue r h' = (Return "li > a", h')
    /\ (forall l ol, l <> 1%nat ->
          [Instance "" 0; Instance "ul" 1; Instance "li" 1; Instance "a" 1]
            !! l = Some ol ->
          getValue l h' = (Return (value ol), h')).
Proof.
  apply (combine_clears_its_receiver 1%nat 2%nat ">" 3%nat
           [Instance "" 0; Instance "ul" 1; Instance "li" 1; Instance "a" 1]
           (Instance "ul" 1) (Instance "li" 1) (Instance "a" 1));
    [reflexivity | discriminate | reflexivity | reflexivity].
Defined.

(** ** Appending in the fixed order *)

Lemma append_nil_r s : s +++ "" = s.
Proof. induction s as [|c s IH]; simpl; [reflexivity | now rewrite IH]. Qed.

Lemma append_assoc a b c : (a +++ b) +++ c = a +++ (b +++ c).
Proof. induction a as [|x a IH]; simpl; [reflexivity | now rewrite IH]. Qed.

Ltac list_scanned H :=
  match type of H with
  | context [scanned ?k] =>
      let l := eval vm_compute in (scanned k) in
      change (scanned k) with l in H
  end.

(** Turn [free_of (scanned k) s = true], for a given [k], into the list of
    its facts [includes s c = false]. *)
Ltac absent_facts H :=
  list_scanned H; unfold free_of in H; simpl forallb in H;
  rewrite ?andb_true_iff, ?negb_true_iff in H;
  repeat match goal with
         | H' : _ /\ _ |- _ => destruct H' as [? ?]
         end.

Ltac use_absent :=
  repeat match goal with
         | H : includes ?s ?m = false |- context [includes ?s ?m] =>
             rewrite H
         end.

Lemma ready_check k s n :
  ready k s -> (k = KElement -> n <= 0) ->
  check s n (marker k) = Return tt.
Proof.
  intros Hr Hn. unfold check, repeats.
  destruct k; unfold ready in Hr; try absent_facts Hr;
    list_errorSelectors; simpl existsb; simpl String.eqb; simpl marker.
  all: try (assert (Hdc : includes s "::" = false)
              by now apply no_double_colon_without_colon).
  all: use_absent; simpl; try reflexivity.
  specialize (Hn eq_refl). destruct (0 <? n) eqn:E; [|reflexivity].
  apply Z.ltb_lt in E. lia.
Qed.

(** What one appended part leaves for the next call, of a later kind. *)
Lemma ready_step k k' s v :
  Kind_lt k k' -> ready k s -> free_of (scanned k') v = true ->
  ready k' (s +++ part k v).
Proof.
  unfold Kind_lt. intros Hlt Hs Hv.
  destruct k, k'; simpl in Hlt; try lia; clear Hlt;
    unfold ready in *; absent_facts Hs; absent_facts Hv.
  all: try match goal with
           | |- free_of _ _ = true =>
               match goal with
               | |- context [scanned ?k] =>
                   let l := eval vm_compute in (scanned k) in
                   change (scanned k) with l
               end;
               unfold free_of, part; simpl forallb;
               rewrite ?includes_app_char; simpl includes;
               rewrite ?includes_app_char; use_absent; reflexivity
           end.
  all: try (apply no_double_colon_without_colon; unfold part;
            rewrite ?includes_app_char; simpl includes;
            rewrite ?includes_app_char; use_absent; reflexivity).
  unfold part. rewrite !includes_app_double_colon.
  rewrite (no_double_colon_without_colon s),
    (no_double_colon_without_colon v),
    (no_colon_at_end s), (no_colon_at_start v) by assumption.
  reflexivity.
Qed.

Lemma ready_empty k : ready k "".
Proof. destruct k; reflexivity. Qed.

(** A chain in the fixed order with hygienic fragments, from an instance
    that is ready for its first call. *)
Lemma chain_from calls :
  forall k v this (h : store) o,
    h !! this = Some o ->
    ready k (value o) ->
    (k = KElement -> elementCount o <= 0) ->
    increasing ((k, v) :: calls) ->
    hygienic ((k, v) :: calls) ->
    exists b h' n,
      chain this ((k, v) :: calls) h = (Return b, h')
      /\ h' !! b = Some (Instance (value o +++ text ((k, v) :: calls)) n).
Proof.
  induction calls as [|[k' v'] calls IH]; intros k v this h o Hl Hr Hn Hi Hy.
  - simpl chain. unfold bind. rewrite (append_ok _ _ _ _ _ Hl).
    rewrite (ready_check _ _ _ Hr Hn).
    eexists _, _, _. split; [reflexivity|].
    rewrite lookup_app_r by lia. rewrite Nat.sub_diag. simpl.
    now rewrite append_nil_r.
  - destruct Hi as [Hlt Hi]. destruct Hy as [Hv Hy].
    change (chain this ((k, v) :: (k', v') :: calls))
      with (b <- append k this v ;; chain b ((k', v') :: calls)).
    unfold bind at 1. rewrite (append_ok _ _ _ _ _ Hl).
    rewrite (ready_check _ _ _ Hr Hn).
    set (o1 := Instance (value o +++ part k v)
                        (count_after k (elementCount o))).
    assert (Hl1 : (h ++ [o1])%list !! length h = Some o1).
    { rewrite lookup_app_r by lia. now rewrite Nat.sub_diag. }
    destruct (IH k' v' (length h) (h ++ [o1])%list o1 Hl1)
      as (b & h' & n & Hc & Hb); try assumption.
    + now apply ready_step.
    + intros ->. unfold Kind_lt in Hlt. simpl in Hlt. lia.
    + exists b, h', n. split; [exact Hc|]. rewrite Hb. simpl value.
      change (text ((k, v) :: (k', v') :: calls))
        with (part k v +++ text ((k', v') :: calls)).
      now rewrite append_assoc.
Qed.


(** ** Repeating a kind *)

Lemma check_Return_inv s n selector :
  check s n selector = Return tt ->
  repeats s n selector = false
  /\ existsb (includes s) (errorSelectors selector) = false.
Proof.
  unfold check. destruct (repeats _ _ _); [discriminate|].
  destruct (existsb _ _); [discriminate|]. auto.
Qed.

Lemma lookup_new (h : store) o : (h ++ [o])%list !! length h = Some o.
Proof. rewrite lookup_app_r by lia. now rewrite Nat.sub_diag. Qed.

(** What a part of a repeatable kind leaves for the next call of that
    kind. *)
Lemma no_later_marker_app k a p :
  repeatable k ->
  existsb (includes a) (errorSelectors (marker k)) = false ->
  no_later_marker k p = true ->
  (k = KPseudoClass -> ends_with_colon a = false) ->
  existsb (includes (a +++ p)) (errorSelectors (marker k)) = false.
Proof.
  unfold no_later_marker. rewrite negb_true_iff.
  intros [->|[->| ->]]; list_errorSelectors; simpl existsb;
    rewrite ?orb_false_iff; intros Ha Hp He;
    repeat match goal with
           | H : _ /\ _ |- _ => destruct H as [? ?]
           end.
  1, 2: assert (Hend : ends_with_colon a = false)
          by now apply no_colon_at_end.
  1, 2: clear He.
  3: specialize (He eq_refl).
  all: rewrite ?includes_app_char, ?includes_app_double_colon;
    use_absent; rewrite ?He, ?Hend; auto.
Qed.

(** [id('a').id('b')] from the fresh root: the second call throws. *)
Lemma second_id_is_rejected :
  repeatable_in_spec KId
  /\ append KId cssSelectorBuilder "a" initial_store
     = (Return 1%nat, [Instance "" 0; Instance "#a" 0])
  /\ append KId 1%nat "b" [Instance "" 0; Instance "#a" 0]
     = (Throw DuplicateUniquePartError, [Instance "" 0; Instance "#a" 0])
  /\ ~ same_kind_again_succeeds KId cssSelectorBuilder "a" "b" initial_store.
Proof.
  split; [now left|]. split; [reflexivity|]. split; [reflexivity|].
  intros H. destruct (H _ _ eq_refl) as (b2 & h2 & H2).
  vm_compute in H2. discriminate H2.
Qed.

(** C1. A class, attribute or pseudo-class call made right after a call of
    the same kind that returned a builder also returns a new builder, with
    the second part appended, provided the first part itself contains no
    marker of a strictly later kind and, for pseudo-class, the value before
    the first part did not end with a colon.  A second [id()] call right
    after a first throws the duplicate-part error. *)
Theorem same_kind_again k b0 v0 v (h : store) o0 b1 h1 :
  h !! b0 = Some o0 ->
  append k b0 v0 h = (Return b1, h1) ->
  (k = KId -> append k b1 v h1 = (Throw DuplicateUniquePartError, h1))
  /\ (repeatable k ->
      no_later_marker k (part k v0) = true ->
      (k = KPseudoClass -> ends_with_colon (value o0) = false) ->
      h1 !! length h1 = None
      /\ append k b1 v h1
         = (Return (length h1),
            (h1 ++ [Instance ((value o0 +++ part k v0) +++ part k v)
                             (elementCount o0)])%list)).
Proof.
  intros Hl Ha. rewrite (append_ok _ _ _ _ _ Hl) in Ha.
  destruct (check (value o0) (elementCount o0) (marker k)) as [[]|e] eqn:Ec;
    [|discriminate Ha].
  injection Ha as <- <-.
  set (o1 := Instance (value o0 +++ part k v0)
                      (count_after k (elementCount o0))).
  pose proof (lookup_new h o1) as Hl1.
  rewrite (append_ok _ _ _ _ _ Hl1).
  change (value o1) with (value o0 +++ part k v0).
  change (elementCount o1) with (count_after k (elementCount o0)).
  split.
  - intros ->. rewrite check_duplicate with (o := o1); [reflexivity|].
    left. split; [now left|]. simpl.
    rewrite includes_app_char. simpl includes. rewrite prefix_empty.
    now destruct (includes (value o0) "#").
  - intros Hk Hp He. split; [now apply lookup_ge_None|].
    apply check_Return_inv in Ec. destruct Ec as [_ Ec].
    pose proof (no_later_marker_app _ _ _ Hk Ec Hp He) as Hn.
    unfold check. rewrite Hn.
    destruct Hk as [->|[->| ->]]; reflexivity.
Qed.

Lemma same_kind_again_witness :
  append KClass 2%nat "editable"
    [Instance "" 0; Instance "#main" 0; Instance "#main.container" 0]
  = (Return 3%nat,
     [Instance "" 0; Instance "#main" 0; Instance "#main.container" 0;
      Instance "#main.container.editable" 0]).
Proof.
  apply (same_kind_again KClass 1%nat "container" "editable"
           [Instance "" 0; Instance "#main" 0] (Instance "#main" 0)
           2%nat
           [Instance "" 0; Instance "#main" 0; Instance "#main.container" 0]
           eq_refl eq_refl).
  - now left.
  - reflexivity.
  - discriminate.
Defined.

(** ** Rendering and uniqueness *)

(** C3. A second element part is not always refused: once
    [b = element('div')] has been rendered, [b.element('span')] returns a
    builder, which renders to [divspan].  Without the rendering in between
    the same call throws the duplicate-part error, and a second
    pseudo-element part is refused whether or not the builder was rendered
    in between. *)
Theorem element_accepted_again_after_stringify :
  (b <- element cssSelectorBuilder "div" ;;
   _ <- stringify b ;;
   b' <- element b "span" ;;
   stringify b') initial_store
  = (Return "divspan",
     [Instance "" 0; Instance "div" 0; Instance "divspan" 0])
  /\ (b <- element cssSelectorBuilder "div" ;; element b "span") initial_store
     = (Throw DuplicateUniquePartError, [Instance "" 0; Instance "div" 1])
  /\ (b <- pseudoElement cssSelectorBuilder "after" ;;
      _ <- stringify b ;;
      pseudoElement b "before") initial_store
     = (Throw DuplicateUniquePartError, [Instance "" 0; Instance "::after" 0]).
Proof. repeat split. Qed.


(** ** The methods on every store

    Each method as a function of the store, also when a reference is not an
    instance of it. *)

Lemma append_cases k this v (h : store) :
  append k this v h
  = match h !! this with
    | None => (Throw TypeError, h)
    | Some o =>
        match check (value o) (elementCount o) (marker k) with
        | Return _ =>
            (Return (length h),
             (h ++ [Instance (value o +++ part k v)
                             (count_after k (elementCount o))])%list)
        | Throw e => (Throw e, h)
        end
    end.
Proof.
  destruct (h !! this) as [o|] eqn:E; [now apply append_ok|].
  destruct k; unfold append, element, id, class, attr, pseudoClass,
    pseudoElement, isError, bind, load; rewrite E; reflexivity.
Qed.

Lemma stringify_cases this (h : store) :
  stringify this h
  = match h !! this with
    | None => (Throw TypeError, h)
    | Some o => (Return (value o), <[this := Instance (value o) 0]> h)
    end.
Proof.
  destruct (h !! this) as [o|] eqn:E; [now apply stringify_ok|].
  unfold stringify, bind, setElementCount. now rewrite E.
Qed.

(** The last four statements of [combine], once both arguments are
    rendered to [s1] and [s2]. *)
Lemma combine_tail_cases this s1 combiner s2 (h : store) :
  (setValue this (s1 +++ " " +++ combiner +++ " " +++ s2) ;;
   result <- getValue this ;;
   setValue this "" ;;
   new result 0) h
  = match h !! this with
    | None => (Throw TypeError, h)
    | Some o =>
        (Return (length h),
         (<[this := Instance "" (elementCount o)]> h
            ++ [Instance (combined s1 combiner s2) 0])%list)
    end.
Proof.
  destruct (h !! this) as [o|] eqn:E.
  - pose proof (lookup_valid _ _ _ E) as Hlt. unfold bind at 1.
    rewrite (setValue_ok _ _ _ E).
    set (x := Instance _ (elementCount o)).
    assert (Hx : <[this := x]> h !! this = Some x)
      by now apply list_lookup_insert_eq.
    unfold bind. rewrite (getValue_ok _ _ _ Hx), (setValue_ok _ _ _ Hx).
    rewrite list_insert_insert_eq. unfold new.
    now rewrite length_insert.
  - unfold bind, setValue. now rewrite E.
Qed.

Lemma combine_cases this selector1 combiner selector2 (h : store) :
  combine this selector1 combiner selector2 h
  = match h !! selector1 with
    | None => (Throw TypeError, h)
    | Some o1 =>
        let h1 := <[selector1 := Instance (value o1) 0]> h in
        match h1 !! selector2 with
        | None => (Throw TypeError, h1)
        | Some o2 =>
            let h2 := <[selector2 := Instance (value o2) 0]> h1 in
            match h2 !! this with
            | None => (Throw TypeError, h2)
            | Some o =>
                (Return (length h),
                 (<[this := Instance "" (elementCount o)]> h2
                    ++ [Instance (combined (value o1) combiner (value o2)) 0])%list)
            end
        end
    end.
Proof.
  unfold combine. unfold bind at 1. rewrite stringify_cases.
  destruct (h !! selector1) as [o1|]; [|reflexivity]. cbv zeta.
  unfold bind at 1. rewrite stringify_cases.
  destruct (_ !! selector2) as [o2|]; [|reflexivity].
  rewrite combine_tail_cases.
  destruct (_ !! this) as [o|]; [|reflexivity].
  now rewrite !length_insert.
Qed.

Lemma check_Return_iff k o :
  check (value o) (elementCount o) (marker k) = Return tt
  <-> ~ duplicate k o /\ ~ later_marker k o.
Proof.
  rewrite <- repeats_iff, <- later_iff. unfold check.
  destruct (repeats _ _ _); [|destruct (existsb _ _)]; split;
    try (intros [H1 H2]); try (intros H1);
    try discriminate; try congruence; try (now split);
    exfalso; auto.
Qed.

Lemma check_duplicate_iff k o :
  check (value o) (elementCount o) (marker k) = Throw DuplicateUniquePartError
  <-> duplicate k o.
Proof.
  split; [|apply check_duplicate].
  rewrite <- repeats_iff. unfold check.
  destruct (repeats _ _ _); [reflexivity|].
  destruct (existsb _ _); [|discriminate].
  intros H. exfalso. apply errors_distinct. congruence.
Qed.

Lemma check_throws s n selector e :
  check s n selector = Throw e ->
  e = DuplicateUniquePartError \/ e = OutOfOrderError.
Proof.
  unfold check. destruct (repeats _ _ _); [intros [= <-]; now left|].
  destruct (existsb _ _); [intros [= <-]; now right|discriminate].
Qed.

(** X1. The outcomes of a part-appending call on an instance of the store
    whose element count is a safe integer.  It returns exactly when neither
    the duplicate condition nor a later marker holds, and then the builder
    it returns is the first unused reference, holding the old value
    followed by the part, with the element count incremented by [element]
    only.  It throws the duplicate-part error exactly when the duplicate
    condition holds.  Whatever it throws is one of the two errors of
    [isError], and the store is then left as it was.  The fragment plays no
    part in the outcome. *)
Theorem append_outcome k this v (h : store) o :
  h !! this = Some o ->
  safe_integer (elementCount o) ->
  (fst (append k this v h) = Return (length h)
   <-> ~ duplicate k o /\ ~ later_marker k o)
  /\ (fst (append k this v h) = Throw DuplicateUniquePartError
      <-> duplicate k o)
  /\ (forall b, fst (append k this v h) = Return b ->
        b = length h
        /\ safe_integer (count_after k (elementCount o))
        /\ snd (append k this v h)
           = (h ++ [Instance (value o +++ part k v)
                             (count_after k (elementCount o))])%list)
  /\ (forall e, fst (append k this v h) = Throw e ->
        (e = DuplicateUniquePartError \/ e = OutOfOrderError)
        /\ snd (append k this v h) = h).
Proof.
  intros Hl Hsafe. rewrite (append_ok _ _ _ _ _ Hl).
  rewrite <- check_Return_iff, <- check_duplicate_iff.
  destruct (check _ _ _) as [[]|e] eqn:Ec; simpl; repeat split;
    try discriminate; try congruence; intros.
  all: try match goal with
           | H : Throw _ = Throw _ |- _ =>
               injection H as <-; eapply check_throws; eauto
           end.
  all: apply check_Return_inv in Ec; destruct Ec as [Ec _];
    unfold safe_integer, MIN_SAFE_INTEGER, MAX_SAFE_INTEGER in *;
    destruct k; simpl count_after; try lia;
    unfold repeats in Ec; simpl in Ec;
    apply orb_false_iff in Ec; destruct Ec as [Ec _];
    apply Z.ltb_ge in Ec; lia.
Qed.

Lemma append_outcome_witness :
  fst (append KClass 1%nat "container" [Instance "" 0; Instance "div#main" 1])
  = Return 2%nat.
Proof.
  apply (append_outcome KClass 1%nat "container"
           [Instance "" 0; Instance "div#main" 1] (Instance "div#main" 1)
           eq_refl).
  - unfold safe_integer, MIN_SAFE_INTEGER, MAX_SAFE_INTEGER. simpl. lia.
  - split.
    + intros [[[H|H] _]|[H _]]; discriminate H.
    + intros (k' & Hlt & Hin). unfold Kind_lt in Hlt.
      destruct k'; simpl in Hlt; try lia; discriminate Hin.
Defined.

(** ** New instances *)

(** Either a call returns the first unused reference, after adding one
    instance at the end of a store of the same length, or it returns no
    builder and keeps the length of the store. *)
Lemma invoke_allocates c (h : store) :
  (exists h0 o,
     invoke c h = (Return (Builder (length h)), (h0 ++ [o])%list)
     /\ length h0 = length h)
  \/ ((forall b, ~ returns_builder c h b)
      /\ length (snd (invoke c h)) = length h).
Proof.
  unfold returns_builder.
  destruct c as [k this v|this s1 tok s2|this]; simpl invoke; unfold bind.
  - rewrite append_cases. destruct (h !! this) as [o|];
      [destruct (check _ _ _) as [[]|e]|].
    + left. eexists h, _. split; reflexivity.
    + right. split; [intros b; discriminate | reflexivity].
    + right. split; [intros b; discriminate | reflexivity].
  - rewrite combine_cases. destruct (h !! s1) as [o1|]; cbv zeta;
      [destruct (_ !! s2) as [o2|]; [destruct (_ !! this) as [o|]|]|].
    + left. eexists _, _. split; [reflexivity|].
      now rewrite !length_insert.
    + right. split; [intros b; discriminate|].
      simpl. now rewrite !length_insert.
    + right. split; [intros b; discriminate|].
      simpl. now rewrite !length_insert.
    + right. split; [intros b; discriminate | reflexivity].
  - rewrite stringify_cases. destruct (h !! this) as [o|].
    + right. split; [intros b; discriminate|].
      simpl. now rewrite length_insert.
    + right. split; [intros b; discriminate | reflexivity].
Qed.

(** X2. No call hands out an instance that existed before.  A builder
    returned by a part-appending call or by [combine] is a reference that
    was not in the store, never the receiver or an argument, and the call
    added exactly that one instance; a call that returns no builder, be it
    [stringify] or a call that throws, adds none. *)
Theorem returned_builder_is_new c (h : store) :
  (forall b, returns_builder c h b ->
     h !! b = None
     /\ is_Some (snd (invoke c h) !! b)
     /\ length (snd (invoke c h)) = S (length h))
  /\ ((forall b, ~ returns_builder c h b) ->
      length (snd (invoke c h)) = length h).
Proof.
  destruct (invoke_allocates c h) as [(h0 & o & Hi & Hlen)|[Hn Hlen]].
  - split.
    + unfold returns_builder. rewrite Hi. simpl. intros b [= <-].
      split; [now apply lookup_ge_None|]. split.
      * exists o. rewrite lookup_app_r by lia.
        now rewrite Hlen, Nat.sub_diag.
      * rewrite length_app. simpl. lia.
    + intros Hn. exfalso. apply (Hn (length h)).
      unfold returns_builder. now rewrite Hi.
  - split; [|auto]. intros b Hb. now destruct (Hn b).
Qed.

Lemma returned_builder_is_new_witness :
  [Instance "" 0; Instance "div" 1; Instance "p" 1] !! 3%nat = None
  /\ is_Some
       (snd (invoke (Combine 1%nat 1%nat ">" 2%nat)
               [Instance "" 0; Instance "div" 1; Instance "p" 1]) !! 3%nat)
  /\ length
       (snd (invoke (Combine 1%nat 1%nat ">" 2%nat)
               [Instance "" 0; Instance "div" 1; Instance "p" 1]))
     = 4%nat.
Proof.
  apply (returned_builder_is_new (Combine 1%nat 1%nat ">" 2%nat)
           [Instance "" 0; Instance "div" 1; Instance "p" 1]).
  reflexivity.
Defined.

(** ** What a history of calls keeps *)

Lemma evolves_refl o : evolves o o.
Proof. split; now left. Qed.

Lemma evolves_trans o1 o2 o3 : evolves o1 o2 -> evolves o2 o3 -> evolves o1 o3.
Proof.
  intros [Hv1 Hc1] [Hv2 Hc2]. split.
  - destruct Hv2 as [->| ->]; auto.
  - destruct Hc2 as [->| ->]; auto.
Qed.

Lemma store_evolves_refl (h : store) : store_evolves h h.
Proof. intros b o Hb. exists o. split; [assumption | apply evolves_refl]. Qed.

Lemma store_evolves_trans (h1 h2 h3 : store) :
  store_evolves h1 h2 -> store_evolves h2 h3 -> store_evolves h1 h3.
Proof.
  intros H12 H23 b o Hb.
  destruct (H12 b o Hb) as (o2 & Hb2 & He2).
  destruct (H23 b o2 Hb2) as (o3 & Hb3 & He3).
  exists o3. split; [assumption | eapply evolves_trans; eauto].
Qed.

Lemma store_evolves_insert (h : store) i oi x :
  h !! i = Some oi -> evolves oi x -> store_evolves h (<[i := x]> h).
Proof.
  intros Hi He b o Hb. destruct (decide (i = b)) as [->|Hne].
  - rewrite list_lookup_insert_eq by (eapply lookup_valid; eauto).
    exists x. split; [reflexivity | congruence].
  - rewrite list_lookup_insert_ne by assumption.
    exists o. split; [assumption | apply evolves_refl].
Qed.

Lemma store_evolves_app (h ext : store) : store_evolves h (h ++ ext)%list.
Proof.
  intros b o Hb. exists o.
  split; [now apply lookup_app_l_Some | apply evolves_refl].
Qed.

Lemma evolves_reset o : evolves o (Instance (value o) 0).
Proof. split; [now left | now right]. Qed.

Lemma evolves_clear o : evolves o (Instance "" (elementCount o)).
Proof. split; [now right | now left]. Qed.

Lemma invoke_evolves c (h : store) : store_evolves h (snd (invoke c h)).
Proof.
  destruct c as [k this v|this s1 tok s2|this]; simpl invoke; unfold bind.
  - rewrite append_cases. destruct (h !! this) as [o|];
      [destruct (check _ _ _) as [[]|e]|]; simpl;
      auto using store_evolves_refl, store_evolves_app.
  - rewrite combine_cases.
    destruct (h !! s1) as [o1|] eqn:E1; cbv zeta;
      [|apply store_evolves_refl].
    pose proof (store_evolves_insert _ _ _ _ E1 (evolves_reset o1)) as H1.
    destruct (_ !! s2) as [o2|] eqn:E2; [|exact H1].
    pose proof (store_evolves_insert _ _ _ _ E2 (evolves_reset o2)) as H2.
    destruct (_ !! this) as [o|] eqn:E3;
      [|simpl; eapply store_evolves_trans; eauto].
    pose proof (store_evolves_insert _ _ _ _ E3 (evolves_clear o)) as H3.
    simpl. eapply store_evolves_trans; [exact H1|].
    eapply store_evolves_trans; [exact H2|].
    eapply store_evolves_trans; [exact H3|]. apply store_evolves_app.
  - rewrite stringify_cases. destruct (h !! this) as [o|] eqn:E; simpl.
    + exact (store_evolves_insert _ _ _ _ E (evolves_reset o)).
    + apply store_evolves_refl.
Qed.

Lemma run_evolves cs : forall h : store, store_evolves h (run cs h).
Proof.
  induction cs as [|c cs IH]; intros h; simpl.
  - apply store_evolves_refl.
  - eapply store_evolves_trans; [apply invoke_evolves | apply IH].
Qed.

(** X3. Across any history of calls of the public surface, whether they
    return or throw, an instance stays in the store, its value is what it
    was or the empty string, and its element count is what it was or 0:
    no call writes a text into an existing instance or raises its element
    count. *)
Theorem history_only_empties_and_resets cs (h : store) b o :
  h !! b = Some o ->
  exists o',
    run cs h !! b = Some o'
    /\ (value o' = value o \/ value o' = "")
    /\ (elementCount o' = elementCount o \/ elementCount o' = 0).
Proof. intros Hb. exact (run_evolves cs h b o Hb). Qed.

Lemma history_only_empties_and_resets_witness :
  exists o',
    run [Stringify 1%nat; Combine 2%nat 1%nat "+" 1%nat;
         Append KElement 1%nat "p"]
        [Instance "" 0; Instance "div" 1; Instance "a" 1] !! 2%nat
    = Some o'
    /\ (value o' = "a" \/ value o' = "")
    /\ (elementCount o' = 1 \/ elementCount o' = 0).
Proof.
  apply (history_only_empties_and_resets
           [Stringify 1%nat; Combine 2%nat 1%nat "+" 1%nat;
            Append KElement 1%nat "p"]
           [Instance "" 0; Instance "div" 1; Instance "a" 1]
           2%nat (Instance "a" 1)).
  reflexivity.
Defined.

Lemma chain_renders_from_fresh calls (h : store) :
  h !! cssSelectorBuilder = Some (Instance "" 0) ->
  increasing calls -> hygienic calls -> chain_renders calls h.
Proof.
  intros Hl Hi Hy. unfold chain_renders. destruct calls as [|[k v] calls].
  - exists cssSelectorBuilder, h. split; [reflexivity|].
    now rewrite (stringify_ok _ _ _ Hl).
  - destruct (chain_from calls k v _ h _ Hl (ready_empty k)) as
      (b & h' & n & Hc & Hb); try assumption.
    + intros _. simpl. lia.
    + exists b, h'. split; [exact Hc|].
      now rewrite (stringify_ok _ _ _ Hb).
Qed.

Lemma facade_kept cs : 
  run cs initial_store !! cssSelectorBuilder = Some (Instance "" 0).
Proof.
  destruct (run_evolves cs initial_store cssSelectorBuilder (Instance "" 0)
              eq_refl) as (o' & Ho & Hv & Hc).
  rewrite Ho. destruct o' as [s n]. simpl in Hv, Hc.
  f_equal. f_equal; [destruct Hv | destruct Hc]; assumption.
Qed.

(** X4. The facade can be reused without end.  After any history of calls
    from the initial store, on any receivers and arguments, returning or
    throwing, [cssSelectorBuilder] still has the empty value and the element
    count 0; it renders to the empty string, and every chain of strictly
    increasing kinds with hygienic fragments started from it succeeds and
    renders to its text. *)
Theorem facade_stays_fresh cs calls :
  increasing calls ->
  hygienic calls ->
  run cs initial_store !! cssSelectorBuilder = Some (Instance "" 0)
  /\ fst (stringify cssSelectorBuilder (run cs initial_store)) = Return ""
  /\ chain_renders calls (run cs initial_store).
Proof.
  intros Hi Hy. pose proof (facade_kept cs) as Hf.
  split; [exact Hf|]. split.
  - now rewrite (stringify_ok _ _ _ Hf).
  - now apply chain_renders_from_fresh.
Qed.

Lemma facade_stays_fresh_witness :
  chain_renders [(KId, "main"); (KClass, "container")]
    (run [Append KElement 0%nat "div"; Stringify 1%nat;
          Combine 0%nat 1%nat "~" 0%nat; Append KElement 1%nat "x"]
       initial_store).
Proof.
  apply (facade_stays_fresh
           [Append KElement 0%nat "div"; Stringify 1%nat;
            Combine 0%nat 1%nat "~" 0%nat; Append KElement 1%nat "x"]
           [(KId, "main"); (KClass, "container")]).
  - simpl. unfold Kind_lt. simpl. lia.
  - simpl. split; [reflexivity | exact I].
Defined.

Lemma invoke_count01 c (h : store) :
  Forall count01 h -> Forall count01 (snd (invoke c h)).
Proof.
  intros HF.
  assert (Hreset : forall (h' : store) i o,
             Forall count01 h' ->
             Forall count01 (<[i := Instance (value o) 0]> h')).
  { intros h' i o H'. apply Forall_insert; [assumption | now left]. }
  destruct c as [k this v|this s1 tok s2|this]; simpl invoke; unfold bind.
  - rewrite append_cases. destruct (h !! this) as [o|] eqn:E; [|exact HF].
    destruct (check _ _ _) as [[]|e] eqn:Ec; [|exact HF]. simpl.
    apply Forall_app. split; [exact HF|]. constructor; [|constructor].
    pose proof (proj1 (Forall_lookup _ _) HF _ _ E) as Ho.
    unfold count01 in *. simpl elementCount.
    destruct k; simpl count_after; try exact Ho.
    apply check_Return_inv in Ec. destruct Ec as [Ec _].
    unfold repeats in Ec. simpl in Ec.
    apply orb_false_iff in Ec. destruct Ec as [Ec _].
    apply Z.ltb_ge in Ec. lia.
  - rewrite combine_cases. destruct (h !! s1) as [o1|]; cbv zeta;
      [|exact HF].
    destruct (_ !! s2) as [o2|]; [|simpl; auto].
    destruct (_ !! this) as [o|] eqn:E; [|simpl; auto].
    simpl. apply Forall_app. split.
    + apply Forall_insert; [auto|].
      assert (Ho : count01 o).
      { eapply (proj1 (Forall_lookup _ _)); [|exact E]. auto. }
      exact Ho.
    + constructor; [now left | constructor].
  - rewrite stringify_cases. destruct (h !! this) as [o|]; simpl; auto.
Qed.

(** X5. In every store a history of calls reaches from the initial store,
    the element count of every instance is 0 or 1. *)
Theorem elementCount_is_0_or_1 cs :
  Forall count01 (run cs initial_store).
Proof.
  assert (H : forall h : store, Forall count01 h -> Forall count01 (run cs h)).
  { induction cs as [|c cs IH]; intros h Hh; simpl; [assumption|].
    apply IH. now apply invoke_count01. }
  apply H. constructor; [now left | constructor].
Qed.

(** ** Chains of part-appending calls *)

Lemma prefix_app_l m a b :
  String.prefix m a = true -> String.prefix m (a +++ b) = true.
Proof.
  revert m. induction a as [|x a IH]; intros m.
  - destruct m; [intros _; apply prefix_empty | discriminate].
  - destruct m as [|c m]; [reflexivity|]. simpl.
    destruct (ascii_dec c x); [apply IH | discriminate].
Qed.

Lemma prefix_app_self m s : String.prefix m (m +++ s) = true.
Proof.
  induction m as [|c m IH]; simpl; [apply prefix_empty|].
  destruct (ascii_dec c c); [exact IH | contradiction].
Qed.

Lemma includes_head m s : String.prefix m s = true -> includes s m = true.
Proof. intros H. destruct s; simpl in *; rewrite H; reflexivity. Qed.

Lemma includes_app_l a b m :
  includes a m = true -> includes (a +++ b) m = true.
Proof.
  induction a as [|x a IH]; simpl.
  - rewrite orb_false_r. intros H. destruct m; [|discriminate].
    apply includes_head, prefix_empty.
  - intros H. apply orb_true_iff in H. destruct H as [H|H].
    + apply (prefix_app_l _ (String x a) b) in H. simpl in H.
      now rewrite H.
    + rewrite (IH H). apply orb_true_r.
Qed.

Lemma includes_app_r a b m :
  includes b m = true -> includes (a +++ b) m = true.
Proof.
  intros H. induction a as [|x a IH]; simpl; [exact H|].
  rewrite IH. apply orb_true_r.
Qed.

(** The part a method appends begins with its marker. *)
Lemma includes_part k v : includes (part k v) (marker k) = true.
Proof.
  apply includes_head.
  destruct k; unfold part, marker;
    first [apply prefix_empty | apply prefix_app_self].
Qed.

Lemma includes_text calls k v :
  In (k, v) calls -> includes (text calls) (marker k) = true.
Proof.
  induction calls as [|[k' v'] calls IH]; [intros []|].
  cbn [text]. intros [[= -> ->]|H].
  - apply includes_app_l, includes_part.
  - apply includes_app_r, IH, H.
Qed.

Lemma elements_nonneg calls : 0 <= elements calls.
Proof.
  induction calls as [|[k v] calls IH]; simpl; [lia|].
  destruct k; lia.
Qed.

Lemma elements_positive calls v : In (KElement, v) calls -> 1 <= elements calls.
Proof.
  induction calls as [|[k' v'] calls IH]; [intros []|].
  pose proof (elements_nonneg calls).
  intros [[= -> ->]|H']; simpl; [lia|].
  specialize (IH H'). destruct k'; lia.
Qed.

(** A chain that returns has only added instances, and the one it returns
    holds the start value followed by the text of the chain. *)
Lemma chain_value calls :
  forall this (h : store) o b h',
    h !! this = Some o ->
    chain this calls h = (Return b, h') ->
    h' !! b = Some (Instance (value o +++ text calls)
                             (elementCount o + elements calls))
    /\ exists ext, h' = (h ++ ext)%list.
Proof.
  induction calls as [|[k v] calls IH]; intros this h o b h' Hl Hc.
  - injection Hc as <- <-. cbn [text elements].
    rewrite append_nil_r, Z.add_0_r. destruct o. split; [exact Hl|].
    exists []. now rewrite app_nil_r.
  - cbn [chain] in Hc. unfold bind in Hc.
    rewrite (append_ok _ _ _ _ _ Hl) in Hc.
    destruct (check _ _ _) as [[]|e]; [|discriminate Hc].
    apply (IH _ _ _ _ _ (lookup_new h _)) in Hc.
    destruct Hc as [Hb [ext ->]]. split.
    + rewrite Hb. cbn [value elementCount text]. f_equal.
      f_equal; [apply append_assoc|].
      destruct k; cbn [count_after elements]; lia.
    + eexists. now rewrite <- app_assoc.
Qed.

(** Along a chain that returns, [element] only ever increments a count
    that is at most 0, so a safe count stays safe. *)
Lemma chain_keeps_safe calls :
  forall this (h : store) o b h',
    h !! this = Some o ->
    safe_integer (elementCount o) ->
    chain this calls h = (Return b, h') ->
    safe_integer (elementCount o + elements calls).
Proof.
  induction calls as [|[k v] calls IH]; intros this h o b h' Hl Hs Hc.
  - cbn [elements]. now rewrite Z.add_0_r.
  - cbn [chain] in Hc. unfold bind in Hc.
    rewrite (append_ok _ _ _ _ _ Hl) in Hc.
    destruct (check _ _ _) as [[]|e] eqn:Ec; [|discriminate Hc].
    apply (IH _ _ _ _ _ (lookup_new h _)) in Hc.
    + cbn [elementCount] in Hc.
      replace (elementCount o + elements ((k, v) :: calls))
        with (count_after k (elementCount o) + elements calls);
        [exact Hc|].
      destruct k; cbn [count_after elements]; lia.
    + cbn [elementCount].
      apply check_Return_inv in Ec. destruct Ec as [Ec _].
      unfold safe_integer, MIN_SAFE_INTEGER, MAX_SAFE_INTEGER in *.
      destruct k; simpl count_after; try lia.
      unfold repeats in Ec. simpl in Ec.
      apply orb_false_iff in Ec. destruct Ec as [Ec _].
      apply Z.ltb_ge in Ec. lia.
Qed.

(** X6. Whenever a chain of part-appending calls returns, from a builder
    whose element count is a safe integer and whatever the kinds and
    fragments, the builder it returns renders to the start value followed
    by the parts in application order, its element count is the start
    count plus the number of [element] calls, again a safe integer, and
    the store has only grown: every instance it had is unchanged. *)
Theorem returned_chain_renders_its_text calls this (h : store) o b h' :
  h !! this = Some o ->
  safe_integer (elementCount o) ->
  chain this calls h = (Return b, h') ->
  fst (stringify b h') = Return (value o +++ text calls)
  /\ getElementCount b h' = (Return (elementCount o + elements calls), h')
  /\ safe_integer (elementCount o + elements calls)
  /\ exists ext, h' = (h ++ ext)%list.
Proof.
  intros Hl Hsafe Hc.
  destruct (chain_value _ _ _ _ _ _ Hl Hc) as [Hb Hext].
  split; [now rewrite (stringify_ok _ _ _ Hb)|].
  split; [exact (getElementCount_ok _ _ _ Hb)|].
  split; [|exact Hext].
  eapply chain_keeps_safe; eauto.
Qed.

Lemma returned_chain_renders_its_text_witness :
  fst (stringify 3%nat
         [Instance "" 0; Instance "ul" 1; Instance "ul.a#b" 1;
          Instance "ul.a#b.c" 1])
  = Return ("ul" +++ text [(KClass, "a#b"); (KClass, "c")]).
Proof.
  apply (returned_chain_renders_its_text [(KClass, "a#b"); (KClass, "c")]
           1%nat [Instance "" 0; Instance "ul" 1] (Instance "ul" 1) 3%nat
           [Instance "" 0; Instance "ul" 1; Instance "ul.a#b" 1;
            Instance "ul.a#b.c" 1]);
    [reflexivity | | reflexivity].
  unfold safe_integer, MIN_SAFE_INTEGER, MAX_SAFE_INTEGER. simpl. lia.
Defined.

Lemma append_throws k this v (h : store) o :
  h !! this = Some o ->
  duplicate k o \/ later_marker k o ->
  exists e,
    append k this v h = (Throw e, h)
    /\ (e = DuplicateUniquePartError \/ e = OutOfOrderError).
Proof.
  intros Hl Hbad. rewrite (append_ok _ _ _ _ _ Hl).
  destruct (check _ _ _) as [[]|e] eqn:Ec.
  - apply check_Return_iff in Ec. tauto.
  - exists e. split; [reflexivity | eapply check_throws; eauto].
Qed.

(** X7. Uniqueness holds along a chain.  When a chain of part-appending
    calls from a builder with a non-negative element count returns and some
    call of it was [element], [id] or [pseudoElement], a further call of
    that kind on the builder it returns throws the duplicate-part error,
    whatever was appended in between, and leaves the store as it is. *)
Theorem unique_part_along_chain calls this (h : store) o b h' k v0 v :
  h !! this = Some o ->
  0 <= elementCount o ->
  chain this calls h = (Return b, h') ->
  In (k, v0) calls ->
  k = KElement \/ k = KId \/ k = KPseudoElement ->
  append k b v h' = (Throw DuplicateUniquePartError, h').
Proof.
  intros Hl Hn Hc Hin Hk.
  destruct (chain_value _ _ _ _ _ _ Hl Hc) as [Hb _].
  rewrite (append_ok _ _ _ _ _ Hb).
  rewrite check_duplicate; [reflexivity|].
  unfold duplicate. cbn [value elementCount].
  destruct Hk as [->|Hk].
  - right. split; [reflexivity|].
    pose proof (elements_positive _ _ Hin). lia.
  - left. split; [exact Hk|].
    apply includes_app_r. eapply includes_text; eauto.
Qed.

Lemma unique_part_along_chain_witness :
  append KId 4%nat "second"
    [Instance "" 0; Instance "#first" 0; Instance "#first.a" 0;
     Instance "#first.a[b]" 0; Instance "#first.a[b]:c" 0]
  = (Throw DuplicateUniquePartError,
     [Instance "" 0; Instance "#first" 0; Instance "#first.a" 0;
      Instance "#first.a[b]" 0; Instance "#first.a[b]:c" 0]).
Proof.
  apply (unique_part_along_chain
           [(KId, "first"); (KClass, "a"); (KAttr, "b"); (KPseudoClass, "c")]
           0%nat [Instance "" 0] (Instance "" 0) 4%nat
           [Instance "" 0; Instance "#first" 0; Instance "#first.a" 0;
            Instance "#first.a[b]" 0; Instance "#first.a[b]:c" 0]
           KId "first" "second").
  - reflexivity.
  - simpl. lia.
  - reflexivity.
  - simpl. now left.
  - right. now left.
Defined.

(** X8. There is no going back along a chain.  When a chain of
    part-appending calls returns and some call of it had kind [k], every
    call of a kind before [k] in the fixed order on the builder it returns
    throws one of the two errors of the validation and leaves the store as
    it is. *)
Theorem earlier_kind_refused_along_chain
    calls this (h : store) o b h' k v0 k' v :
  h !! this = Some o ->
  chain this calls h = (Return b, h') ->
  In (k, v0) calls ->
  Kind_lt k' k ->
  exists e,
    append k' b v h' = (Throw e, h')
    /\ (e = DuplicateUniquePartError \/ e = OutOfOrderError).
Proof.
  intros Hl Hc Hin Hlt.
  destruct (chain_value _ _ _ _ _ _ Hl Hc) as [Hb _].
  apply (append_throws _ _ _ _ _ Hb). right.
  exists k. split; [exact Hlt|]. cbn [value].
  apply includes_app_r. eapply includes_text; eauto.
Qed.

Lemma earlier_kind_refused_along_chain_witness :
  exists e,
    append KId 3%nat "late"
      [Instance "" 0; Instance "a" 1; Instance "a[b]" 1;
       Instance "a[b]:c" 1]
    = (Throw e,
       [Instance "" 0; Instance "a" 1; Instance "a[b]" 1;
        Instance "a[b]:c" 1])
    /\ (e = DuplicateUniquePartError \/ e = OutOfOrderError).
Proof.
  apply (earlier_kind_refused_along_chain
           [(KElement, "a"); (KAttr, "b"); (KPseudoClass, "c")]
           0%nat [Instance "" 0] (Instance "" 0) 3%nat
           [Instance "" 0; Instance "a" 1; Instance "a[b]" 1;
            Instance "a[b]:c" 1]
           KAttr "b" KId "late").
  - reflexivity.
  - reflexivity.
  - simpl. right. now left.
  - unfold Kind_lt. simpl. lia.
Defined.

(** X9. Nothing can be appended once the value holds [::].  On an instance
    whose value contains the pseudo-element marker, wherever it came from,
    each of the six part-appending calls throws one of the two errors of
    the validation and leaves the store as it is. *)
Theorem nothing_after_double_colon k this v (h : store) o :
  h !! this = Some o ->
  includes (value o) "::" = true ->
  exists e,
    append k this v h = (Throw e, h)
    /\ (e = DuplicateUniquePartError \/ e = OutOfOrderError).
Proof.
  intros Hl Hdc. apply (append_throws _ _ _ _ _ Hl).
  destruct (decide (rank k = 5%nat)) as [Hk|Hk].
  - left. left. destruct k; try discriminate Hk. split; [now right|exact Hdc].
  - right. exists KPseudoElement. split; [|exact Hdc].
    unfold Kind_lt. destruct k; simpl in *; lia.
Qed.

Lemma nothing_after_double_colon_witness :
  exists e,
    append KClass 1%nat "x" [Instance "" 0; Instance "p::first-line" 1]
    = (Throw e, [Instance "" 0; Instance "p::first-line" 1])
    /\ (e = DuplicateUniquePartError \/ e = OutOfOrderError).
Proof.
  apply (nothing_after_double_colon KClass 1%nat "x"
           [Instance "" 0; Instance "p::first-line" 1]
           (Instance "p::first-line" 1));
    reflexivity.
Defined.

(** ** Nesting [combine] *)

(** [combine] on instances of the store, with what it leaves of the values:
    only the receiver's is lost, and only if it was not empty. *)
Lemma combine_ok_values (h : store) this o X oX tok Y oY :
  h !! this = Some o ->
  h !! X = Some oX ->
  h !! Y = Some oY ->
  exists h1,
    combine this X tok Y h = (Return (length h), h1)
    /\ h1 !! length h
       = Some (Instance (combined (value oX) tok (value oY)) 0)
    /\ forall l ol,
         h !! l = Some ol -> l <> this \/ value ol = "" ->
         exists ol', h1 !! l = Some ol' /\ value ol' = value ol.
Proof.
  intros Ht HX HY.
  destruct (combine_ok h this o X oX tok Y oY Ht HX HY)
    as (h' & c & Hc & Hlen & Ht').
  eexists. split; [exact Hc|]. split.
  - rewrite lookup_app_r by lia. now rewrite Hlen, Nat.sub_diag.
  - intros l ol Hl Hcase.
    destruct (decide (l = this)) as [->|Hne].
    + destruct Hcase as [Hcase|Hcase]; [congruence|].
      exists (Instance "" c). split; [now apply lookup_app_l_Some|].
      now rewrite Hcase.
    + destruct (modifies_combine this X tok Y h l ol Hl)
        as (ol' & Hl' & Hv & _).
      rewrite Hc in Hl'. exists ol'. split; [exact Hl'|].
      apply Hv. congruence.
Qed.

(** X10. Nested combinations render alike whichever way they are nested.
    With a receiver that has the empty value, as the facade always has, or
    that is neither [A] nor [C], combining [A] with [B] and the result with
    [C] renders to the same string as combining [A] with the combination of
    [B] and [C]: the three values joined by the two tokens, each token
    between two spaces. *)
Theorem combine_nests_either_way
    this A B C t1 t2 (h : store) o oA oB oC :
  h !! this = Some o ->
  h !! A = Some oA ->
  h !! B = Some oB ->
  h !! C = Some oC ->
  value o = "" \/ (this <> A /\ this <> C) ->
  let s := value oA +++ " " +++ t1 +++ " " +++ value oB
           +++ " " +++ t2 +++ " " +++ value oC in
  fst ((ab <- combine this A t1 B ;;
        r <- combine this ab t2 C ;;
        stringify r) h) = Return s
  /\ fst ((bc <- combine this B t2 C ;;
           r <- combine this A t1 bc ;;
           stringify r) h) = Return s.
Proof.
  intros Ht HA HB HC Hrecv s.
  assert (HkA : A <> this \/ value oA = "").
  { destruct (decide (A = this)) as [->|]; [right|now left].
    destruct Hrecv as [Hv|[Hn _]]; congruence. }
  assert (HkC : C <> this \/ value oC = "").
  { destruct (decide (C = this)) as [->|]; [right|now left].
    destruct Hrecv as [Hv|[_ Hn]]; congruence. }
  split.
  - destruct (combine_ok_values h this o A oA t1 B oB Ht HA HB)
      as (h1 & Hc1 & Hab & Hkeep).
    destruct (Hkeep C oC HC HkC) as (oC' & HC' & HvC).
    assert (Ht1 : exists ot, h1 !! this = Some ot).
    { apply lookup_lt_is_Some.
      assert (length h <= length h1)%nat; [|pose proof (lookup_valid _ _ _ Ht); lia].
      pose proof (lookup_valid _ _ _ Hab). lia. }
    destruct Ht1 as [ot Ht1].
    destruct (combine_ok_values h1 this ot _ _ t2 C oC' Ht1 Hab HC')
      as (h2 & Hc2 & Hr & _).
    unfold bind. rewrite Hc1, Hc2, (stringify_ok _ _ _ Hr).
    cbn [fst value]. rewrite HvC. unfold combined, s.
    now rewrite ?append_assoc.
  - destruct (combine_ok_values h this o B oB t2 C oC Ht HB HC)
      as (h1 & Hc1 & Hbc & Hkeep).
    destruct (Hkeep A oA HA HkA) as (oA' & HA' & HvA).
    assert (Ht1 : exists ot, h1 !! this = Some ot).
    { apply lookup_lt_is_Some.
      assert (length h <= length h1)%nat; [|pose proof (lookup_valid _ _ _ Ht); lia].
      pose proof (lookup_valid _ _ _ Hbc). lia. }
    destruct Ht1 as [ot Ht1].
    destruct (combine_ok_values h1 this ot A oA' t1 _ _ Ht1 HA' Hbc)
      as (h2 & Hc2 & Hr & _).
    unfold bind. rewrite Hc1, Hc2, (stringify_ok _ _ _ Hr).
    cbn [fst value]. rewrite HvA. unfold combined, s.
    now rewrite ?append_assoc.
Qed.

Lemma combine_nests_either_way_witness :
  fst ((ab <- combine 0%nat 1%nat "+" 2%nat ;;
        r <- combine 0%nat ab ">" 3%nat ;;
        stringify r)
         [Instance "" 0; Instance "div" 1; Instance "span" 1; Instance "p" 1])
  = Return "div + span > p"
  /\ fst ((bc <- combine 0%nat 2%nat ">" 3%nat ;;
           r <- combine 0%nat 1%nat "+" bc ;;
           stringify r)
            [Instance "" 0; Instance "div" 1; Instance "span" 1;
             Instance "p" 1])
     = Return "div + span > p".
Proof.
  exact (combine_nests_either_way 0%nat 1%nat 2%nat 3%nat "+" ">"
           [Instance "" 0; Instance "div" 1; Instance "span" 1; Instance "p" 1]
           (Instance "" 0) (Instance "div" 1) (Instance "span" 1)
           (Instance "p" 1) eq_refl eq_refl eq_refl eq_refl
           (or_introl eq_refl)).
Defined.

(** ** [isError] on a token that is no marker *)

Lemma indexOf_from_absent arr x i :
  ~ In x arr -> indexOf_from arr x i = -1.
Proof.
  revert i. induction arr as [|y arr IH]; intros i Hn; [reflexivity|].
  simpl. destruct (String.eqb_spec y x) as [->|_].
  - exfalso. apply Hn. now left.
  - apply IH. intros Hin. apply Hn. now right.
Qed.

Lemma includes_empty s : includes s "" = true.
Proof. apply includes_head, prefix_empty. Qed.

(** X11. [isError] called with a token that is not one of the six markers
    of [elementsSymbols] throws the ordering error on every instance,
    whatever its value and element count: [indexOf] answers -1, the scan
    then runs over the whole array, and every value includes its first
    entry, the empty string. *)
Theorem isError_rejects_unknown_token this selector (h : store) o :
  h !! this = Some o ->
  ~ In selector elementsSymbols ->
  isError this selector h = (Throw OutOfOrderError, h).
Proof.
  intros Hl Hn. rewrite (isError_ok _ _ _ _ Hl). f_equal.
  unfold check, repeats, errorSelectors, indexOf.
  rewrite (indexOf_from_absent _ _ _ Hn).
  assert (He : String.eqb selector "" = false).
  { apply String.eqb_neq. intros ->. apply Hn. now left. }
  assert (Hh : String.eqb selector "#" = false).
  { apply String.eqb_neq. intros ->. apply Hn. right. now left. }
  assert (Hp : String.eqb selector "::" = false).
  { apply String.eqb_neq. intros ->. apply Hn. simpl. tauto. }
  rewrite He, Hh, Hp. simpl. now rewrite includes_empty.
Qed.

Lemma isError_rejects_unknown_token_witness :
  isError 0%nat ">" initial_store = (Throw OutOfOrderError, initial_store).
Proof.
  apply (isError_rejects_unknown_token 0%nat ">" initial_store
           (Instance "" 0) eq_refl).
  simpl. intros H.
  repeat (destruct H as [H|H]; [discriminate H|]). exact H.
Defined.

(** ** Chains from the fresh root: exactly which succeed *)

(** [passes] is the verdict of [isError] on a value and a count. *)
Lemma passes_check k s n :
  passes k s n = true <-> check s n (marker k) = Return tt.
Proof.
  unfold passes, check, repeats.
  destruct k;
    match goal with
    | |- context [scanned ?k] =>
        let l := eval vm_compute in (scanned k) in
        change (scanned k) with l
    end;
    list_errorSelectors;
    cbn [is_element marker forallb existsb]; simpl String.eqb;
    repeat match goal with
           | |- context [includes s ?m] => destruct (includes s m)
           end;
    destruct (0 <? n); simpl; split; intros H;
    first [reflexivity | discriminate H].
Qed.

(** A chain returns exactly when each of its calls passes on the text
    appended before it. *)
Lemma chain_returns_iff calls :
  forall this (h : store) o,
    h !! this = Some o ->
    (exists b h', chain this calls h = (Return b, h'))
    <-> admissible_from (value o) (elementCount o) calls = true.
Proof.
  induction calls as [|[k v] calls IH]; intros this h o Hl.
  - simpl. split; [reflexivity|]. intros _. now exists this, h.
  - cbn [chain admissible_from]. unfold bind.
    rewrite (append_ok _ _ _ _ _ Hl), andb_true_iff, passes_check.
    destruct (check _ _ _) as [[]|e] eqn:Ec.
    + rewrite (IH _ _ _ (lookup_new h _)). cbn [value elementCount].
      tauto.
    + split.
      * intros (b & h' & H). discriminate H.
      * intros [H _]. discriminate H.
Qed.




(** The chains of strictly increasing kinds with hygienic fragments are
    among the admissible ones. *)
Lemma hygienic_admissible calls :
  increasing calls -> hygienic calls -> admissible calls.
Proof.
  intros Hi Hy.
  apply (chain_returns_iff calls cssSelectorBuilder initial_store
           (Instance "" 0) eq_refl).
  destruct (chain_renders_from_fresh calls initial_store eq_refl Hi Hy)
    as (b & h' & Hc & _).
  now exists b, h'.
Qed.

(** Three chains outside the hygienic ones that the validation lets
    through: colons that form no [::], and a repeated class. *)
Example admissible_colon_in_attribute :
  admissible [(KElement, "a");
              (KAttr, "href=" +++ dquote +++ "http://x" +++ dquote);
              (KPseudoClass, "focus")].
Proof. reflexivity. Qed.

Example admissible_colon_in_pseudoClass :
  admissible [(KPseudoClass, "not(:hover)"); (KPseudoElement, "after")].
Proof. reflexivity. Qed.

Example admissible_repeated_class :
  admissible [(KId, "main"); (KClass, "container"); (KClass, "editable")].
Proof. reflexivity. Qed.


